(** * SQLite -> PostgreSQL migration script ([migrate.js]): a shallow embedding

    The script is one sequential [async] function.  Its pure helpers
    ([sqliteToPgType], [getSafeIdentifier], the row encoder) become Rocq
    functions on strings; the two database connections and the console become
    an explicit state (the databases' own state plus the trace of every call
    the script makes), threaded through a small monad with JavaScript's three
    ways of leaving a block: a value, a thrown error, and [process.exit].
    The one unbounded loop, [while (true)] over the pages of a table, takes a
    number of turns as fuel; running out of it is a fourth, separate outcome.

    A string is held as the bytes of its UTF-8 form, which is what a string
    literal of this file denotes.  [toUpperCase] goes through the code points
    and the upper-case forms of Unicode 14.0.  [toLowerCase] acts on the ASCII
    letters only; for the one use the script makes of it, membership in the
    reserved words, this decides as JavaScript does: the only character
    outside ASCII whose lower-case form is made of ASCII letters is the Kelvin
    sign, which gives k, and no reserved word has a k.  The counters
    [processedRows] and [rowNum] are natural numbers. *)

From Stdlib Require Import String Ascii List Arith ZArith Bool Lia Floats DecimalString
  DecimalNat.
From stdpp Require Import base strings gmap.

Open Scope string_scope.

(** ** Configuration (lines 7-10) *)

Definition SQLITE_DB_PATH : string := "webui.db".
Definition BATCH_SIZE : nat := 500.
Definition MAX_RETRIES : nat := 3.

(** ** JavaScript strings *)

Definition is_upper_letter (c : ascii) : bool :=
  let n := nat_of_ascii c in Nat.leb 65 n && Nat.leb n 90.

Definition lower_char (c : ascii) : ascii :=
  if is_upper_letter c then ascii_of_nat (nat_of_ascii c + 32) else c.

Fixpoint map_chars (f : ascii -> ascii) (s : string) : string :=
  match s with
  | EmptyString => EmptyString
  | String c r => String (f c) (map_chars f r)
  end.

(** [String.prototype.toLowerCase], on the ASCII letters. *)
Definition toLowerCase (s : string) : string := map_chars lower_char s.

(** *** Code points *)

Definition byte (c : ascii) : N := N_of_ascii c.
Definition char (n : N) : ascii := ascii_of_N n.

(** The six payload bits of a continuation byte at the head of [s], and what
    follows it. *)
Definition continuation (s : string) : option (N * string) :=
  match s with
  | String c r =>
      let b := byte c in
      if (0x80 <=? b)%N && (b <? 0xC0)%N then Some ((b - 0x80)%N, r) else None
  | EmptyString => None
  end.

(** The code point that starts the non-empty string [String c r], and the
    rest of the string.  The shortest form only is well formed; a byte that
    starts no well-formed sequence, which no JavaScript string gives, is
    read as the code point of its own number. *)
Definition head_point (c : ascii) (r : string) : N * string :=
  let b := byte c in
  let stray := (b, r) in
  if (b <? 0xC0)%N then stray
  else
    match continuation r with
    | None => stray
    | Some (x1, r1) =>
        if (b <? 0xE0)%N then
          let cp := ((b - 0xC0) * 64 + x1)%N in
          if (0x80 <=? cp)%N then (cp, r1) else stray
        else
          match continuation r1 with
          | None => stray
          | Some (x2, r2) =>
              if (b <? 0xF0)%N then
                let cp := (((b - 0xE0) * 64 + x1) * 64 + x2)%N in
                if (0x800 <=? cp)%N then (cp, r2) else stray
              else
                match continuation r2 with
                | None => stray
                | Some (x3, r3) =>
                    let cp := ((((b - 0xF0) * 64 + x1) * 64 + x2) * 64 + x3)%N in
                    if (0x10000 <=? cp)%N && (cp <=? 0x10FFFF)%N then (cp, r3) else stray
                end
          end
    end.

Fixpoint points_from (fuel : nat) (s : string) : list N :=
  match fuel, s with
  | S fuel', String c r =>
      let '(cp, rest) := head_point c r in cp :: points_from fuel' rest
  | _, _ => []
  end.

(** The code points of a string. *)
Definition code_points (s : string) : list N := points_from (String.length s) s.

(** The UTF-8 form of a code point. *)
Definition utf8 (cp : N) : string :=
  if (cp <? 0x80)%N then String (char cp) ""
  else if (cp <? 0x800)%N then
    String (char (0xC0 + cp / 64)) (String (char (0x80 + cp mod 64)) "")
  else if (cp <? 0x10000)%N then
    String (char (0xE0 + cp / 4096))
      (String (char (0x80 + (cp / 64) mod 64)) (String (char (0x80 + cp mod 64)) ""))
  else if (cp <? 0x110000)%N then
    String (char (0xF0 + cp / 262144))
      (String (char (0x80 + (cp / 4096) mod 64))
         (String (char (0x80 + (cp / 64) mod 64)) (String (char (0x80 + cp mod 64)) "")))
  else String (char 0xEF) (String (char 0xBF) (String (char 0xBD) "")).

Definition of_code_points (l : list N) : string :=
  fold_right (fun cp s => utf8 cp +:+ s) "" l.

(** *** Upper case

    The upper-case forms of the code points outside ASCII (Unicode 14.0,
    [UnicodeData.txt] and the unconditional entries of [SpecialCasing.txt]).
    [(first, last, step, target)] stands for the code points [first],
    [first + step], ... up to [last], that have the single upper-case code
    points [target], [target + step], ...; [upper_special] lists the code
    points whose upper-case form has two or three code points.  Every other
    code point is its own upper-case form. *)

Definition upper_ranges : list (N * N * N * N) :=
  [
   (0xB5, 0xB5, 1, 0x39C); (0xE0, 0xF6, 1, 0xC0); (0xF8, 0xFE, 1, 0xD8);
   (0xFF, 0xFF, 1, 0x178); (0x101, 0x12F, 2, 0x100); (0x131, 0x131, 1, 0x49);
   (0x133, 0x137, 2, 0x132); (0x13A, 0x148, 2, 0x139); (0x14B, 0x177, 2, 0x14A);
   (0x17A, 0x17E, 2, 0x179); (0x17F, 0x17F, 1, 0x53); (0x180, 0x180, 1, 0x243);
   (0x183, 0x185, 2, 0x182); (0x188, 0x188, 1, 0x187); (0x18C, 0x18C, 1, 0x18B);
   (0x192, 0x192, 1, 0x191); (0x195, 0x195, 1, 0x1F6); (0x199, 0x199, 1, 0x198);
   (0x19A, 0x19A, 1, 0x23D); (0x19E, 0x19E, 1, 0x220); (0x1A1, 0x1A5, 2, 0x1A0);
   (0x1A8, 0x1A8, 1, 0x1A7); (0x1AD, 0x1AD, 1, 0x1AC); (0x1B0, 0x1B0, 1, 0x1AF);
   (0x1B4, 0x1B6, 2, 0x1B3); (0x1B9, 0x1B9, 1, 0x1B8); (0x1BD, 0x1BD, 1, 0x1BC);
   (0x1BF, 0x1BF, 1, 0x1F7); (0x1C5, 0x1C5, 1, 0x1C4); (0x1C6, 0x1C6, 1, 0x1C4);
   (0x1C8, 0x1C8, 1, 0x1C7); (0x1C9, 0x1C9, 1, 0x1C7); (0x1CB, 0x1CB, 1, 0x1CA);
   (0x1CC, 0x1CC, 1, 0x1CA); (0x1CE, 0x1DC, 2, 0x1CD); (0x1DD, 0x1DD, 1, 0x18E);
   (0x1DF, 0x1EF, 2, 0x1DE); (0x1F2, 0x1F2, 1, 0x1F1); (0x1F3, 0x1F3, 1, 0x1F1);
   (0x1F5, 0x1F5, 1, 0x1F4); (0x1F9, 0x21F, 2, 0x1F8); (0x223, 0x233, 2, 0x222);
   (0x23C, 0x23C, 1, 0x23B); (0x23F, 0x240, 1, 0x2C7E); (0x242, 0x242, 1, 0x241);
   (0x247, 0x24F, 2, 0x246); (0x250, 0x250, 1, 0x2C6F); (0x251, 0x251, 1, 0x2C6D);
   (0x252, 0x252, 1, 0x2C70); (0x253, 0x253, 1, 0x181); (0x254, 0x254, 1, 0x186);
   (0x256, 0x257, 1, 0x189); (0x259, 0x259, 1, 0x18F); (0x25B, 0x25B, 1, 0x190);
   (0x25C, 0x25C, 1, 0xA7AB); (0x260, 0x260, 1, 0x193); (0x261, 0x261, 1, 0xA7AC);
   (0x263, 0x263, 1, 0x194); (0x265, 0x265, 1, 0xA78D); (0x266, 0x266, 1, 0xA7AA);
   (0x268, 0x268, 1, 0x197); (0x269, 0x269, 1, 0x196); (0x26A, 0x26A, 1, 0xA7AE);
   (0x26B, 0x26B, 1, 0x2C62); (0x26C, 0x26C, 1, 0xA7AD); (0x26F, 0x26F, 1, 0x19C);
   (0x271, 0x271, 1, 0x2C6E); (0x272, 0x272, 1, 0x19D); (0x275, 0x275, 1, 0x19F);
   (0x27D, 0x27D, 1, 0x2C64); (0x280, 0x280, 1, 0x1A6); (0x282, 0x282, 1, 0xA7C5);
   (0x283, 0x283, 1, 0x1A9); (0x287, 0x287, 1, 0xA7B1); (0x288, 0x288, 1, 0x1AE);
   (0x289, 0x289, 1, 0x244); (0x28A, 0x28B, 1, 0x1B1); (0x28C, 0x28C, 1, 0x245);
   (0x292, 0x292, 1, 0x1B7); (0x29D, 0x29D, 1, 0xA7B2); (0x29E, 0x29E, 1, 0xA7B0);
   (0x345, 0x345, 1, 0x399); (0x371, 0x373, 2, 0x370); (0x377, 0x377, 1, 0x376);
   (0x37B, 0x37D, 1, 0x3FD); (0x3AC, 0x3AC, 1, 0x386); (0x3AD, 0x3AF, 1, 0x388);
   (0x3B1, 0x3C1, 1, 0x391); (0x3C2, 0x3C2, 1, 0x3A3); (0x3C3, 0x3CB, 1, 0x3A3);
   (0x3CC, 0x3CC, 1, 0x38C); (0x3CD, 0x3CE, 1, 0x38E); (0x3D0, 0x3D0, 1, 0x392);
   (0x3D1, 0x3D1, 1, 0x398); (0x3D5, 0x3D5, 1, 0x3A6); (0x3D6, 0x3D6, 1, 0x3A0);
   (0x3D7, 0x3D7, 1, 0x3CF); (0x3D9, 0x3EF, 2, 0x3D8); (0x3F0, 0x3F0, 1, 0x39A);
   (0x3F1, 0x3F1, 1, 0x3A1); (0x3F2, 0x3F2, 1, 0x3F9); (0x3F3, 0x3F3, 1, 0x37F);
   (0x3F5, 0x3F5, 1, 0x395); (0x3F8, 0x3F8, 1, 0x3F7); (0x3FB, 0x3FB, 1, 0x3FA);
   (0x430, 0x44F, 1, 0x410); (0x450, 0x45F, 1, 0x400); (0x461, 0x481, 2, 0x460);
   (0x48B, 0x4BF, 2, 0x48A); (0x4C2, 0x4CE, 2, 0x4C1); (0x4CF, 0x4CF, 1, 0x4C0);
   (0x4D1, 0x52F, 2, 0x4D0); (0x561, 0x586, 1, 0x531); (0x10D0, 0x10FA, 1, 0x1C90);
   (0x10FD, 0x10FF, 1, 0x1CBD); (0x13F8, 0x13FD, 1, 0x13F0); (0x1C80, 0x1C80, 1, 0x412);
   (0x1C81, 0x1C81, 1, 0x414); (0x1C82, 0x1C82, 1, 0x41E); (0x1C83, 0x1C84, 1, 0x421);
   (0x1C85, 0x1C85, 1, 0x422); (0x1C86, 0x1C86, 1, 0x42A); (0x1C87, 0x1C87, 1, 0x462);
   (0x1C88, 0x1C88, 1, 0xA64A); (0x1D79, 0x1D79, 1, 0xA77D); (0x1D7D, 0x1D7D, 1, 0x2C63);
   (0x1D8E, 0x1D8E, 1, 0xA7C6); (0x1E01, 0x1E95, 2, 0x1E00); (0x1E9B, 0x1E9B, 1, 0x1E60);
   (0x1EA1, 0x1EFF, 2, 0x1EA0); (0x1F00, 0x1F07, 1, 0x1F08); (0x1F10, 0x1F15, 1, 0x1F18);
   (0x1F20, 0x1F27, 1, 0x1F28); (0x1F30, 0x1F37, 1, 0x1F38); (0x1F40, 0x1F45, 1, 0x1F48);
   (0x1F51, 0x1F57, 2, 0x1F59); (0x1F60, 0x1F67, 1, 0x1F68); (0x1F70, 0x1F71, 1, 0x1FBA);
   (0x1F72, 0x1F75, 1, 0x1FC8); (0x1F76, 0x1F77, 1, 0x1FDA); (0x1F78, 0x1F79, 1, 0x1FF8);
   (0x1F7A, 0x1F7B, 1, 0x1FEA); (0x1F7C, 0x1F7D, 1, 0x1FFA); (0x1FB0, 0x1FB1, 1, 0x1FB8);
   (0x1FBE, 0x1FBE, 1, 0x399); (0x1FD0, 0x1FD1, 1, 0x1FD8); (0x1FE0, 0x1FE1, 1, 0x1FE8);
   (0x1FE5, 0x1FE5, 1, 0x1FEC); (0x214E, 0x214E, 1, 0x2132); (0x2170, 0x217F, 1, 0x2160);
   (0x2184, 0x2184, 1, 0x2183); (0x24D0, 0x24E9, 1, 0x24B6); (0x2C30, 0x2C5F, 1, 0x2C00);
   (0x2C61, 0x2C61, 1, 0x2C60); (0x2C65, 0x2C65, 1, 0x23A); (0x2C66, 0x2C66, 1, 0x23E);
   (0x2C68, 0x2C6C, 2, 0x2C67); (0x2C73, 0x2C73, 1, 0x2C72); (0x2C76, 0x2C76, 1, 0x2C75);
   (0x2C81, 0x2CE3, 2, 0x2C80); (0x2CEC, 0x2CEE, 2, 0x2CEB); (0x2CF3, 0x2CF3, 1, 0x2CF2);
   (0x2D00, 0x2D25, 1, 0x10A0); (0x2D27, 0x2D27, 1, 0x10C7); (0x2D2D, 0x2D2D, 1, 0x10CD);
   (0xA641, 0xA66D, 2, 0xA640); (0xA681, 0xA69B, 2, 0xA680); (0xA723, 0xA72F, 2, 0xA722);
   (0xA733, 0xA76F, 2, 0xA732); (0xA77A, 0xA77C, 2, 0xA779); (0xA77F, 0xA787, 2, 0xA77E);
   (0xA78C, 0xA78C, 1, 0xA78B); (0xA791, 0xA793, 2, 0xA790); (0xA794, 0xA794, 1, 0xA7C4);
   (0xA797, 0xA7A9, 2, 0xA796); (0xA7B5, 0xA7C3, 2, 0xA7B4); (0xA7C8, 0xA7CA, 2, 0xA7C7);
   (0xA7D1, 0xA7D1, 1, 0xA7D0); (0xA7D7, 0xA7D9, 2, 0xA7D6); (0xA7F6, 0xA7F6, 1, 0xA7F5);
   (0xAB53, 0xAB53, 1, 0xA7B3); (0xAB70, 0xABBF, 1, 0x13A0); (0xFF41, 0xFF5A, 1, 0xFF21);
   (0x10428, 0x1044F, 1, 0x10400); (0x104D8, 0x104FB, 1, 0x104B0);
   (0x10597, 0x105A1, 1, 0x10570); (0x105A3, 0x105B1, 1, 0x1057C);
   (0x105B3, 0x105B9, 1, 0x1058C); (0x105BB, 0x105BC, 1, 0x10594);
   (0x10CC0, 0x10CF2, 1, 0x10C80); (0x118C0, 0x118DF, 1, 0x118A0);
   (0x16E60, 0x16E7F, 1, 0x16E40); (0x1E922, 0x1E943, 1, 0x1E900)
  ]%N.

Definition upper_special : list (N * list N) :=
  [
   (0xDF, [0x53; 0x53]); (0x149, [0x2BC; 0x4E]); (0x1F0, [0x4A; 0x30C]);
   (0x390, [0x399; 0x308; 0x301]); (0x3B0, [0x3A5; 0x308; 0x301]); (0x587, [0x535; 0x552]);
   (0x1E96, [0x48; 0x331]); (0x1E97, [0x54; 0x308]); (0x1E98, [0x57; 0x30A]);
   (0x1E99, [0x59; 0x30A]); (0x1E9A, [0x41; 0x2BE]); (0x1F50, [0x3A5; 0x313]);
   (0x1F52, [0x3A5; 0x313; 0x300]); (0x1F54, [0x3A5; 0x313; 0x301]);
   (0x1F56, [0x3A5; 0x313; 0x342]); (0x1F80, [0x1F08; 0x399]); (0x1F81, [0x1F09; 0x399]);
   (0x1F82, [0x1F0A; 0x399]); (0x1F83, [0x1F0B; 0x399]); (0x1F84, [0x1F0C; 0x399]);
   (0x1F85, [0x1F0D; 0x399]); (0x1F86, [0x1F0E; 0x399]); (0x1F87, [0x1F0F; 0x399]);
   (0x1F88, [0x1F08; 0x399]); (0x1F89, [0x1F09; 0x399]); (0x1F8A, [0x1F0A; 0x399]);
   (0x1F8B, [0x1F0B; 0x399]); (0x1F8C, [0x1F0C; 0x399]); (0x1F8D, [0x1F0D; 0x399]);
   (0x1F8E, [0x1F0E; 0x399]); (0x1F8F, [0x1F0F; 0x399]); (0x1F90, [0x1F28; 0x399]);
   (0x1F91, [0x1F29; 0x399]); (0x1F92, [0x1F2A; 0x399]); (0x1F93, [0x1F2B; 0x399]);
   (0x1F94, [0x1F2C; 0x399]); (0x1F95, [0x1F2D; 0x399]); (0x1F96, [0x1F2E; 0x399]);
   (0x1F97, [0x1F2F; 0x399]); (0x1F98, [0x1F28; 0x399]); (0x1F99, [0x1F29; 0x399]);
   (0x1F9A, [0x1F2A; 0x399]); (0x1F9B, [0x1F2B; 0x399]); (0x1F9C, [0x1F2C; 0x399]);
   (0x1F9D, [0x1F2D; 0x399]); (0x1F9E, [0x1F2E; 0x399]); (0x1F9F, [0x1F2F; 0x399]);
   (0x1FA0, [0x1F68; 0x399]); (0x1FA1, [0x1F69; 0x399]); (0x1FA2, [0x1F6A; 0x399]);
   (0x1FA3, [0x1F6B; 0x399]); (0x1FA4, [0x1F6C; 0x399]); (0x1FA5, [0x1F6D; 0x399]);
   (0x1FA6, [0x1F6E; 0x399]); (0x1FA7, [0x1F6F; 0x399]); (0x1FA8, [0x1F68; 0x399]);
   (0x1FA9, [0x1F69; 0x399]); (0x1FAA, [0x1F6A; 0x399]); (0x1FAB, [0x1F6B; 0x399]);
   (0x1FAC, [0x1F6C; 0x399]); (0x1FAD, [0x1F6D; 0x399]); (0x1FAE, [0x1F6E; 0x399]);
   (0x1FAF, [0x1F6F; 0x399]); (0x1FB2, [0x1FBA; 0x399]); (0x1FB3, [0x391; 0x399]);
   (0x1FB4, [0x386; 0x399]); (0x1FB6, [0x391; 0x342]); (0x1FB7, [0x391; 0x342; 0x399]);
   (0x1FBC, [0x391; 0x399]); (0x1FC2, [0x1FCA; 0x399]); (0x1FC3, [0x397; 0x399]);
   (0x1FC4, [0x389; 0x399]); (0x1FC6, [0x397; 0x342]); (0x1FC7, [0x397; 0x342; 0x399]);
   (0x1FCC, [0x397; 0x399]); (0x1FD2, [0x399; 0x308; 0x300]); (0x1FD3, [0x399; 0x308; 0x301]);
   (0x1FD6, [0x399; 0x342]); (0x1FD7, [0x399; 0x308; 0x342]); (0x1FE2, [0x3A5; 0x308; 0x300]);
   (0x1FE3, [0x3A5; 0x308; 0x301]); (0x1FE4, [0x3A1; 0x313]); (0x1FE6, [0x3A5; 0x342]);
   (0x1FE7, [0x3A5; 0x308; 0x342]); (0x1FF2, [0x1FFA; 0x399]); (0x1FF3, [0x3A9; 0x399]);
   (0x1FF4, [0x38F; 0x399]); (0x1FF6, [0x3A9; 0x342]); (0x1FF7, [0x3A9; 0x342; 0x399]);
   (0x1FFC, [0x3A9; 0x399]); (0xFB00, [0x46; 0x46]); (0xFB01, [0x46; 0x49]);
   (0xFB02, [0x46; 0x4C]); (0xFB03, [0x46; 0x46; 0x49]); (0xFB04, [0x46; 0x46; 0x4C]);
   (0xFB05, [0x53; 0x54]); (0xFB06, [0x53; 0x54]); (0xFB13, [0x544; 0x546]);
   (0xFB14, [0x544; 0x535]); (0xFB15, [0x544; 0x53B]); (0xFB16, [0x54E; 0x546]);
   (0xFB17, [0x544; 0x53D])
  ]%N.

Definition in_range (cp : N) (r : N * N * N * N) : bool :=
  let '(first, last, step, _) := r in
  (first <=? cp)%N && (cp <=? last)%N && ((cp - first) mod step =? 0)%N.

Definition upper_simple (cp : N) : N :=
  match List.find (in_range cp) upper_ranges with
  | Some (first, _, _, target) => (target + (cp - first))%N
  | None => cp
  end.

(** The upper-case form of one code point: another code point, or for the
    code points of [upper_special] two or three. *)
Definition upper_point (cp : N) : list N :=
  if (cp <? 0x80)%N then
    [if (0x61 <=? cp)%N && (cp <=? 0x7A)%N then (cp - 0x20)%N else cp]
  else
    match List.find (fun entry => (fst entry =? cp)%N) upper_special with
    | Some (_, l) => l
    | None => [upper_simple cp]
    end.

(** [String.prototype.toUpperCase]: every code point is replaced by its
    upper-case form. *)
Definition toUpperCase (s : string) : string :=
  of_code_points (flat_map upper_point (code_points s)).

(** [s.replace(/c/g, by)] for a pattern that is one literal character: every
    occurrence of [c], left to right, is replaced by [by]. *)
Fixpoint replace_all (c : ascii) (by_ : string) (s : string) : string :=
  match s with
  | EmptyString => EmptyString
  | String d r =>
      if Ascii.eqb d c then by_ +:+ replace_all c by_ r
      else String d (replace_all c by_ r)
  end.

(** [Array.prototype.join]. *)
Definition join (sep : string) (l : list string) : string := String.concat sep l.

Definition NUL : ascii := "000"%char.
Definition squote : ascii := "'"%char.
Definition dquote : ascii := "034"%char.
Definition nl : string := String "010"%char EmptyString.

(** Template literals [`${n}`] for the non-negative integer counters. *)
Definition nat_to_string (n : nat) : string := NilEmpty.string_of_uint (Nat.to_uint n).

(** ** [sqliteToPgType] (lines 21-29) *)

Definition sqliteToPgType (sqliteType : string) : string :=
  let t := toUpperCase sqliteType in
  if String.eqb t "INTEGER" then "INTEGER"
  else if String.eqb t "REAL" then "DOUBLE PRECISION"
  else if String.eqb t "TEXT" then "TEXT"
  else if String.eqb t "BLOB" then "BYTEA"
  else "TEXT".

(** ** [getSafeIdentifier] (lines 32-35) *)

Definition reservedKeywords : list string :=
  ["user"; "group"; "order"; "table"; "select"; "where"; "from"; "index"; "constraint"].

(** [Array.prototype.includes] on an array of strings. *)
Definition includes (l : list string) (x : string) : bool :=
  existsb (String.eqb x) l.

Definition getSafeIdentifier (identifier : string) : string :=
  if includes reservedKeywords (toLowerCase identifier)
  then String dquote identifier +:+ String dquote EmptyString
  else identifier.

(** ** Values, rows and errors *)

(** What a row of either driver can hold, and what reading a missing
    property gives.  A JavaScript number is a binary64 float. *)
Inductive value : Type :=
| VUndefined
| VNull
| VNum (n : float)
| VStr (s : string)
| VBuf (bytes : string).

(** A row object: its own properties in the order [Object.keys] lists them
    (for column names, the order of the columns), each key once. *)
Definition row : Type := list (string * value).

(** Property read [r.k]. *)
Fixpoint get (r : row) (k : string) : value :=
  match r with
  | [] => VUndefined
  | (k', v) :: r' => if String.eqb k' k then v else get r' k
  end.

(** [v === 'lit'] for a string literal, [v === 1] and [v === null]. *)
Definition strict_eq_str (v : value) (lit : string) : bool :=
  match v with VStr s => String.eqb s lit | _ => false end.

Definition strict_eq_one (v : value) : bool :=
  match v with VNum n => PrimFloat.eqb n 1%float | _ => false end.

Definition is_null (v : value) : bool :=
  match v with VNull => true | _ => false end.

Record error : Type := mkError { err_name : string; message : string }.

Definition TypeError (msg : string) : error := mkError "TypeError" msg.

Inductive result (A : Type) : Type :=
| Ok (a : A)
| Err (e : error).
Arguments Ok {A} a.
Arguments Err {A} e.

(** An entry of [failedRows]: [[tableName, rowNum, error.message]]. *)
Definition failure : Type := (string * nat * string)%type.

(** ** What the script does to the outside world *)

Inductive logarg : Type :=
| NoArg
| ErrArg (e : error)
| StackArg (e : error)
| RowArg (r : row)
| RowsArg (rs : list row).

Inductive event : Type :=
| SqliteOpen (path : string)
| SqliteRun (sql : string)
| SqliteGet (sql : string)
| SqliteAll (sql : string)
| SqliteClose
| PgConnect
| PgQuery (sql : string) (params : list string)
| PgEnd
| ConsoleLog (text : string) (arg : logarg)
| ConsoleError (text : string) (arg : logarg).

(** The two databases and the runtime, as the script meets them: every call
    answers with a result (rows, or the error the promise rejects with) and a
    new state of the world.  [db.get] resolves to [undefined] ([None]) when
    the statement yields no row.  The runtime's number printing and
    [Buffer.prototype.toString], which may throw, are taken as given; so is
    [Buffer_blocks_assignment bytes k]: whether, for an object that inherits
    from the buffer [bytes], the buffer answers the assignment [o[k] = v]
    itself, so that [o] gets no property [k] (an index of the buffer, an
    accessor without a setter such as [length]). *)
Record Env : Type := {
  World : Type;
  sqlite_run : string -> World -> World;
  sqlite_get : string -> World -> result (option row) * World;
  sqlite_all : string -> World -> result (list row) * World;
  pg_connect : World -> result unit * World;
  pg_query : string -> list string -> World -> result (list row) * World;
  Number_toString : float -> string;
  Buffer_toString_utf8 : string -> result string;
  Buffer_toString_latin1 : string -> result string;
  Buffer_blocks_assignment : string -> string -> bool
}.

(** The state threaded through the script: the world, the trace of calls made
    so far (oldest first), and the two per-table mutable locals of [migrate]
    (lines 198-199), which the batch loop's handlers read after a throw. *)
Record state (E : Env) : Type := mkState {
  world : World E;
  trace : list event;
  processedRows : nat;
  failedRows : list failure
}.
Arguments mkState {E} _ _ _ _.
Arguments world {E} _.
Arguments trace {E} _.
Arguments processedRows {E} _.
Arguments failedRows {E} _.

Definition init_state {E : Env} (w : World E) : state E := mkState w [] 0 [].

(** How a block ends: with a value, with a thrown error, with [process.exit],
    or not within the given number of loop iterations. *)
Inductive outcome (A : Type) : Type :=
| Val (a : A)
| Throw (e : error)
| Exit (code : nat)
| Diverge.
Arguments Val {A} a.
Arguments Throw {A} e.
Arguments Exit {A} code.
Arguments Diverge {A}.

(** Loop control: [break] or go round again. *)
Inductive ctl : Type := Break | Continue.

Section Script.
Context {E : Env}.

Definition M (A : Type) : Type := state E -> outcome A * state E.

Definition ret {A} (a : A) : M A := fun st => (Val a, st).

Definition bind {A B} (m : M A) (k : A -> M B) : M B := fun st =>
  match m st with
  | (Val a, st') => k a st'
  | (Throw e, st') => (Throw e, st')
  | (Exit c, st') => (Exit c, st')
  | (Diverge, st') => (Diverge, st')
  end.

Definition throw {A} (e : error) : M A := fun st => (Throw e, st).
Definition exit {A} (code : nat) : M A := fun st => (Exit code, st).
Definition diverge {A} : M A := fun st => (Diverge, st).

(** [try { m } catch (error) { h error }]: only a thrown error is caught. *)
Definition try_catch {A} (m : M A) (h : error -> M A) : M A := fun st =>
  match m st with
  | (Throw e, st') => h e st'
  | r => r
  end.

(** [try { m } finally { f }]: [process.exit] ends the process at once, so
    [f] does not run after it. *)
Definition try_finally {A} (m : M A) (f : M unit) : M A := fun st =>
  match m st with
  | (Val a, st') => bind f (fun _ => ret a) st'
  | (Throw e, st') => bind f (fun _ => throw e) st'
  | r => r
  end.

Definition lift_result {A} (r : result A) : M A :=
  match r with Ok a => ret a | Err e => throw e end.

Definition emit (ev : event) : M unit := fun st =>
  (Val tt, mkState (world st) (trace st ++ [ev]) (processedRows st) (failedRows st)).

Definition console_log (text : string) (arg : logarg) : M unit := emit (ConsoleLog text arg).
Definition console_error (text : string) (arg : logarg) : M unit := emit (ConsoleError text arg).

(** One awaited call: the event is recorded, the world moves on, and a
    rejected promise becomes a throw. *)
Definition call {A} (ev : event) (f : World E -> result A * World E) : M A := fun st =>
  let '(r, w) := f (world st) in
  lift_result r (mkState w (trace st ++ [ev]) (processedRows st) (failedRows st)).

Definition sqliteRun (sql : string) : M unit :=
  call (SqliteRun sql) (fun w => (Ok tt, sqlite_run E sql w)).
Definition sqliteGet (sql : string) : M (option row) := call (SqliteGet sql) (sqlite_get E sql).
Definition sqliteAll (sql : string) : M (list row) := call (SqliteAll sql) (sqlite_all E sql).
Definition pgConnect : M unit := call PgConnect (pg_connect E).
Definition pgQuery (sql : string) (params : list string) : M (list row) :=
  call (PgQuery sql params) (pg_query E sql params).

Definition get_processedRows : M nat := fun st => (Val (processedRows st), st).
Definition get_failedRows : M (list failure) := fun st => (Val (failedRows st), st).
Definition set_processedRows (n : nat) : M unit := fun st =>
  (Val tt, mkState (world st) (trace st) n (failedRows st)).
Definition set_failedRows (l : list failure) : M unit := fun st =>
  (Val tt, mkState (world st) (trace st) (processedRows st) l).

End Script.

Declare Scope script_scope.
Delimit Scope script_scope with script.
Notation "x <- m ;; k" := (bind m (fun x => k))
  (at level 100, m at next level, right associativity) : script_scope.
Notation "m ;; k" := (bind m (fun _ => k))
  (at level 100, right associativity) : script_scope.
Open Scope script_scope.

Section Migration.
Context {E : Env}.

Fixpoint for_each {A} (l : list A) (body : A -> M (E:=E) unit) : M unit :=
  match l with
  | [] => ret tt
  | x :: r => body x ;; for_each r body
  end.

Fixpoint map_M {A B} (f : A -> M (E:=E) B) (l : list A) : M (list B) :=
  match l with
  | [] => ret []
  | x :: r => y <- f x ;; ys <- map_M f r ;; ret (y :: ys)
  end.

Fixpoint map_result {A B} (f : A -> result B) (l : list A) : result (list B) :=
  match l with
  | [] => Ok []
  | x :: r =>
      match f x with
      | Err e => Err e
      | Ok y => match map_result f r with Err e => Err e | Ok ys => Ok (y :: ys) end
      end
  end.

(** [String(v)], as a template literal applies it. *)
Definition js_string (v : value) : string :=
  match v with
  | VUndefined => "undefined"
  | VNull => "null"
  | VNum n => Number_toString E n
  | VStr s => s
  | VBuf b => match Buffer_toString_utf8 E b with Ok s => s | Err _ => "" end
  end.

(** What [Array.prototype.join] writes for an element. *)
Definition join_elem (v : value) : string :=
  match v with
  | VUndefined | VNull => ""
  | _ => js_string v
  end.

(** Reading property [key] of what [db.get] resolved to. *)
Definition prop_of (o : option row) (key : string) : M (E:=E) value :=
  match o with
  | Some r => ret (get r key)
  | None =>
      throw (TypeError ("Cannot read properties of undefined (reading '" +:+ key +:+ "')"))
  end.

(** The receiver of a string method ([identifier.toLowerCase()],
    [sqliteType.toUpperCase()]): anything but a string throws. *)
Definition string_receiver (expr method : string) (v : value) : M (E:=E) string :=
  match v with
  | VStr s => ret s
  | VUndefined =>
      throw (TypeError ("Cannot read properties of undefined (reading '" +:+ method +:+ "')"))
  | VNull =>
      throw (TypeError ("Cannot read properties of null (reading '" +:+ method +:+ "')"))
  | _ => throw (TypeError (expr +:+ "." +:+ method +:+ " is not a function"))
  end.

(** ** [checkSqliteIntegrity] (lines 38-96) *)

Definition checkSqliteIntegrity : M (E:=E) bool :=
  console_log "Running SQLite database integrity check..." NoArg ;;
  try_catch
    (integrityCheck <- sqliteGet "PRAGMA integrity_check;" ;;
     quickCheck <- sqliteGet "PRAGMA quick_check;" ;;
     fkCheck <- sqliteAll "PRAGMA foreign_key_check;" ;;
     integrity_status <- prop_of integrityCheck "integrity_check" ;;
     if negb (strict_eq_str integrity_status "ok") then
       console_log "❌ Database integrity check failed!" NoArg ;;
       console_log "Integrity check results:" (RowArg (default [] integrityCheck)) ;;
       ret false
     else
       quick_status <- prop_of quickCheck "quick_check" ;;
       if negb (strict_eq_str quick_status "ok") then
         console_log "❌ Quick check failed!" NoArg ;;
         console_log "Quick check results:" (RowArg (default [] quickCheck)) ;;
         ret false
       else if Nat.ltb 0 (length fkCheck) then
         console_log "❌ Foreign key check failed!" NoArg ;;
         console_log "Foreign key issues:" (RowsArg fkCheck) ;;
         ret false
       else
         _ <- sqliteGet "SELECT COUNT(*) FROM sqlite_master;" ;;
         console_log "✅ SQLite database integrity check passed" NoArg ;;
         ret true)
    (fun error =>
       console_log "❌ Error during integrity check:" (ErrArg error) ;;
       ret false).

(** ** The row encoder (lines 220-246)

    The callback of [Object.entries(row).map]: one [[key, value]] pair to the
    literal that goes into the INSERT. *)

Definition quoted (s : string) : string := String squote s +:+ String squote EmptyString.

(** Lines 238-243, the [typeof value === 'string'] branch. *)
Definition encode_text (value : string) : string :=
  let cleanedValue := replace_all squote "''" (replace_all NUL "" value) in
  quoted cleanedValue.

Definition encode_value (pgColumnTypes : gmap string value) (entry : string * value)
  : result value :=
  let '(key, value) := entry in
  let columnType := default VUndefined (pgColumnTypes !! key) in
  if is_null value then Ok (VStr "NULL")
  else if strict_eq_str columnType "boolean" then
    Ok (VStr (if strict_eq_one value then "true" else "false"))
  else
    match value with
    | VBuf bytes =>
        match Buffer_toString_utf8 E bytes with
        | Ok s => Ok (VStr (quoted (replace_all squote "''" s)))
        | Err _ =>
            match Buffer_toString_latin1 E bytes with
            | Ok s => Ok (VStr (quoted (replace_all squote "''" s)))
            | Err e => Err e
            end
        end
    | VStr s => Ok (VStr (encode_text s))
    | _ => Ok value
    end.

(** The statement text of lines 248-252. *)
Definition insert_query (safeTableName : string) (columns : list string) (values : list value)
  : string :=
  nl +:+ "                INSERT INTO " +:+ safeTableName +:+ " " +:+ nl +:+
  "                (" +:+ join ", " columns +:+ ") " +:+ nl +:+
  "                VALUES (" +:+ join ", " (map join_elem values) +:+ ")" +:+ nl +:+
  "              ".

(** ** One row (lines 218-258) *)

Definition insert_row (tableName safeTableName : string) (pgColumnTypes : gmap string value)
    (r : row) : M (E:=E) unit :=
  try_catch
    (let columns := map getSafeIdentifier (map fst r) in
     values <- lift_result (map_result (encode_value pgColumnTypes) r) ;;
     _ <- pgQuery (insert_query safeTableName columns values) [] ;;
     ret tt)
    (fun error =>
       console_log ("Error processing row in " +:+ tableName +:+ ":") (ErrArg error) ;;
       processed <- get_processedRows ;;
       failed <- get_failedRows ;;
       set_failedRows (failed ++ [(tableName, processed + length failed, message error)])).

(** ** One turn of the batch loop (the body of [while (true)], lines 203-270) *)

Definition select_page (tableName : string) (offset : nat) : string :=
  "SELECT * FROM `" +:+ tableName +:+ "` LIMIT " +:+ nat_to_string BATCH_SIZE +:+
  " OFFSET " +:+ nat_to_string offset.

Definition batch_turn (tableName safeTableName : string) (pgColumnTypes : gmap string value)
    (totalRows : value) : M (E:=E) ctl :=
  try_catch
    (offset <- get_processedRows ;;
     rows <- sqliteAll (select_page tableName offset) ;;
     if Nat.eqb (length rows) 0 then ret Break
     else
       for_each rows (insert_row tableName safeTableName pgColumnTypes) ;;
       processed <- get_processedRows ;;
       set_processedRows (processed + length rows) ;;
       processed <- get_processedRows ;;
       console_log ("Processed " +:+ nat_to_string processed +:+ "/" +:+ js_string totalRows +:+
                    " rows from " +:+ tableName) NoArg ;;
       _ <- pgQuery "COMMIT" [] ;;
       ret Continue)
    (fun error =>
       console_log "SQLite error during batch processing:" (ErrArg error) ;;
       console_log "Attempting to continue with next batch..." NoArg ;;
       processed <- get_processedRows ;;
       set_processedRows (processed + BATCH_SIZE) ;;
       ret Continue).

(** [while (true)], cut after [fuel] turns. *)
Fixpoint batch_loop (fuel : nat) (tableName safeTableName : string)
    (pgColumnTypes : gmap string value) (totalRows : value) : M (E:=E) unit :=
  match fuel with
  | 0 => diverge
  | S fuel' =>
      c <- batch_turn tableName safeTableName pgColumnTypes totalRows ;;
      match c with
      | Break => ret tt
      | Continue => batch_loop fuel' tableName safeTableName pgColumnTypes totalRows
      end
  end.

(** ** The source schema, with retries (lines 164-180)

    [schema] stays [undefined] ([None]) if the loop ends without assigning
    it.  The loop variable [retryCount] only grows, so [MAX_RETRIES] turns of
    fuel are enough. *)

Definition table_info (tableName : string) : string :=
  "PRAGMA table_info(`" +:+ tableName +:+ "`)".

Fixpoint schema_loop (fuel : nat) (tableName : string) (retryCount : nat)
  : M (E:=E) (option (list row)) :=
  match fuel with
  | 0 => if Nat.ltb retryCount MAX_RETRIES then diverge else ret None
  | S fuel' =>
      if Nat.ltb retryCount MAX_RETRIES then
        next <- try_catch
          (rows <- sqliteAll (table_info tableName) ;;
           ret (inl rows))
          (fun error =>
             let retryCount := retryCount + 1 in
             console_log ("Retry " +:+ nat_to_string retryCount +:+ "/" +:+
                          nat_to_string MAX_RETRIES +:+ " getting schema for " +:+
                          tableName +:+ ":") (ErrArg error) ;;
             if Nat.eqb retryCount MAX_RETRIES then throw error
             else ret (inr retryCount)) ;;
        match next with
        | inl rows => ret (Some rows)
        | inr retryCount => schema_loop fuel' tableName retryCount
        end
      else ret None
  end.

Definition fetch_schema (tableName : string) : M (E:=E) (option (list row)) :=
  schema_loop MAX_RETRIES tableName 0.

(** ** One table (the body of [for (const table of tables)], lines 131-281) *)

Definition columns_query : string :=
  "SELECT column_name, data_type" +:+ nl +:+
  "         FROM information_schema.columns" +:+ nl +:+
  "         WHERE table_name = $1".

(** [pgColumnTypes] is a plain object used as a map: its own properties and
    its prototype, which is [Object.prototype] for [{}]. *)
Inductive prototype : Type :=
| ObjectPrototype
| NullPrototype
| BufferPrototype (bytes : string).

Record object : Type := mkObject { own : gmap string value; proto : prototype }.

(** The setter [__proto__] of [Object.prototype]: given null or an object it
    replaces the prototype, and it ignores every other value.  It makes no
    property. *)
Definition set_prototype (o : object) (v : value) : object :=
  match v with
  | VNull => mkObject (own o) NullPrototype
  | VBuf bytes => mkObject (own o) (BufferPrototype bytes)
  | _ => o
  end.

(** [o[k] = v].  An own property is updated.  Otherwise the prototype chain
    is asked first: [Object.prototype], when it is on the chain, answers for
    [__proto__] with its setter; a buffer on the chain answers for the keys it
    blocks, and the assignment is then lost (the script is not in strict
    mode).  Every other assignment makes the own property [k]. *)
Definition assign (o : object) (k : string) (v : value) : object :=
  let define := mkObject (<[k := v]> (own o)) (proto o) in
  match own o !! k with
  | Some _ => define
  | None =>
      match proto o with
      | NullPrototype => define
      | ObjectPrototype => if String.eqb k "__proto__" then set_prototype o v else define
      | BufferPrototype bytes =>
          if String.eqb k "__proto__" then set_prototype o v
          else if Buffer_blocks_assignment E bytes k then o
          else define
      end
  end.

(** Lines 158-161: [pgColumnTypes[col.column_name] = col.data_type] for each
    row of the catalog query, starting from [{}].  The result is the map of
    the object's own properties, which is what [Object.keys] counts.  The
    script only ever compares a property read with ['boolean'], and no
    inherited property is that string, so a key that is not in the map reads
    as [undefined]. *)
Definition column_types (rows : list row) : gmap string value :=
  own (fold_left (fun o col => assign o (js_string (get col "column_name")) (get col "data_type"))
                 rows (mkObject ∅ ObjectPrototype)).

Definition create_statement (safeTableName columns : string) : string :=
  "CREATE TABLE IF NOT EXISTS " +:+ safeTableName +:+ " (" +:+ columns +:+ ")".

(** Lines 184-186: one [name type] item per source column. *)
Definition column_def (col : row) : M (E:=E) string :=
  name <- string_receiver "identifier" "toLowerCase" (get col "name") ;;
  type <- string_receiver "sqliteType" "toUpperCase" (get col "type") ;;
  ret (getSafeIdentifier name +:+ " " +:+ sqliteToPgType type).

Definition create_table (safeTableName : string) (schema : option (list row))
  : M (E:=E) unit :=
  match schema with
  | None => throw (TypeError "Cannot read properties of undefined (reading 'map')")
  | Some cols =>
      defs <- map_M column_def cols ;;
      let columns := join ", " defs in
      _ <- pgQuery (create_statement safeTableName columns) [] ;;
      ret tt
  end.

(** Lines 142-188: truncate, read the destination's columns, read the source
    schema, create the table when the destination reported no column.  The
    result is the [pgColumnTypes] the row encoder will use. *)
Definition truncate_table (tableName safeTableName : string) : M (E:=E) unit :=
  try_catch
    (console_log ("Truncating table: " +:+ tableName) NoArg ;;
     _ <- pgQuery ("TRUNCATE TABLE " +:+ safeTableName +:+ " CASCADE") [] ;;
     ret tt)
    (fun error =>
       console_log ("Note: Table " +:+ tableName +:+
                    " does not exist yet or could not be truncated:") (ErrArg error)).

Definition prepare_table (tableName safeTableName : string)
  : M (E:=E) (gmap string value) :=
  truncate_table tableName safeTableName ;;
  pgSchema <- pgQuery columns_query [safeTableName] ;;
  let pgColumnTypes := column_types pgSchema in
  schema <- fetch_schema tableName ;;
  (if Nat.eqb (size pgColumnTypes) 0 then create_table safeTableName schema else ret tt) ;;
  ret pgColumnTypes.

(** Lines 273-281: the per-table report. *)
Definition report_table (tableName : string) : M (E:=E) unit :=
  failed <- get_failedRows ;;
  (if Nat.ltb 0 (length failed) then
     console_log (nl +:+ "Failed rows for " +:+ tableName +:+ ":") NoArg ;;
     for_each failed (fun '(_, rowNum, error) =>
       console_log ("Row " +:+ nat_to_string rowNum +:+ ": " +:+ error) NoArg)
   else ret tt) ;;
  processed <- get_processedRows ;;
  console_log ("Completed migrating " +:+ nat_to_string processed +:+ " rows from " +:+
               tableName) NoArg ;;
  failed <- get_failedRows ;;
  console_log ("Failed to migrate " +:+ nat_to_string (length failed) +:+ " rows from " +:+
               tableName) NoArg.

Definition migrate_table (fuel : nat) (table : row) : M (E:=E) unit :=
  let name := get table "name" in
  if strict_eq_str name "migratehistory" || strict_eq_str name "alembic_version" then
    console_log ("Skipping table: " +:+ js_string name) NoArg
  else
    tableName <- string_receiver "identifier" "toLowerCase" name ;;
    let safeTableName := getSafeIdentifier tableName in
    console_log (nl +:+ "Processing table: " +:+ tableName) NoArg ;;
    pgColumnTypes <- prepare_table tableName safeTableName ;;
    countResult <- sqliteGet ("SELECT COUNT(*) as count FROM `" +:+ tableName +:+ "`") ;;
    totalRows <- prop_of countResult "count" ;;
    set_processedRows 0 ;;
    set_failedRows [] ;;
    batch_loop fuel tableName safeTableName pgColumnTypes totalRows ;;
    report_table tableName.

(** ** The end-of-run summary (lines 284-288) *)

(** [x.length] for the values a row can hold ([undefined] where there is no
    such property), then [|| 0]. *)
Definition length_or_zero (v : value) : nat :=
  match v with
  | VStr s => String.length s
  | VBuf b => String.length b
  | _ => 0
  end.

Definition totalFailedRows (tables : list row) : nat :=
  fold_left (fun sum table => sum + length_or_zero (get table "failedRows")) tables 0.

Definition summary (tables : list row) : M (E:=E) unit :=
  console_log (nl +:+ "Migration completed!") NoArg ;;
  let total := totalFailedRows tables in
  if Nat.ltb 0 total then
    console_log ("Total failed rows: " +:+ nat_to_string total) NoArg
  else ret tt.

(** ** [migrate] (lines 98-299) *)

(** Lines 99-112: open the source, set its pragmas (their callbacks ignore
    errors), connect to the destination. *)
Definition connect : M (E:=E) unit :=
  emit (SqliteOpen SQLITE_DB_PATH) ;;
  sqliteRun "PRAGMA journal_mode=WAL" ;;
  sqliteRun "PRAGMA synchronous=NORMAL" ;;
  pgConnect.

Definition tables_query : string := "SELECT name FROM sqlite_master WHERE type='table'".

(** Lines 115-288, the [try] block. *)
Definition migrate_body (fuel : nat) : M (E:=E) unit :=
  isIntegrityOk <- checkSqliteIntegrity ;;
  (if negb isIntegrityOk then
     console_log "Aborting migration due to database integrity issues" NoArg ;;
     exit 1
   else ret tt) ;;
  tables <- sqliteAll tables_query ;;
  for_each tables (migrate_table fuel) ;;
  summary tables.

Definition migrate (fuel : nat) : M (E:=E) unit :=
  connect ;;
  try_finally
    (try_catch (migrate_body fuel)
       (fun error =>
          console_error "Critical error during migration:" (ErrArg error) ;;
          console_error "Stack trace:" (StackArg error) ;;
          _ <- pgQuery "ROLLBACK" [] ;;
          ret tt))
    (emit SqliteClose ;; emit PgEnd).

(** Line 301, [migrate().catch(console.error)], and the exit code the process
    ends with: the one given to [process.exit], else 0.  [None]: the run did
    not end within [fuel] turns of a batch loop. *)
Definition main (fuel : nat) (w : World E) : option nat * state E :=
  match try_catch (migrate fuel) (fun error => console_error "" (ErrArg error)) (init_state w) with
  | (Exit code, st) => (Some code, st)
  | (Diverge, st) => (None, st)
  | (_, st) => (Some 0, st)
  end.

End Migration.

(** The statements sent to the destination, in order. *)
Definition pg_statements (tr : list event) : list string :=
  flat_map (fun ev => match ev with PgQuery sql _ => [sql] | _ => [] end) tr.

(** The texts written with [console.log], in order. *)
Definition console_lines (tr : list event) : list string :=
  flat_map (fun ev => match ev with ConsoleLog text _ => [text] | _ => [] end) tr.

(** ** Notions the statements below use *)

(** The number of UTF-16 code units of a string: what JavaScript calls its
    [length]. *)
Definition js_length (s : string) : nat :=
  list_sum (map (fun cp => if (cp <? 0x10000)%N then 1 else 2) (code_points s)).

(** Every byte of the string is an ASCII character. *)
Definition is_ascii (s : string) : bool :=
  forallb (fun c => (byte c <? 0x80)%N) (list_ascii_of_string s).

(** The code point [cp] is the upper-case ASCII letter [k] in either case;
    the dotless i (U+0131), which JavaScript upper-cases to I, counts as a
    lower-case I. *)
Definition same_letter (cp : N) (k : ascii) : bool :=
  (cp =? byte k)%N || (cp =? byte (lower_char k))%N ||
  ((cp =? 0x131)%N && Ascii.eqb k "I"%char).

Fixpoint letters_match (l : list N) (keyword : string) : bool :=
  match l, keyword with
  | [], EmptyString => true
  | cp :: l', String k keyword' => same_letter cp k && letters_match l' keyword'
  | _, _ => false
  end.

(** [s] spells the upper-case keyword, letter by letter, in any case. *)
Definition case_variant (s keyword : string) : bool :=
  letters_match (code_points s) keyword.

(** A word of upper-case ASCII letters other than S and F (the letters that
    the upper-case forms of some ligatures and of the sharp s are made of). *)
Definition plain_word (keyword : string) : bool :=
  forallb (fun k => is_upper_letter k && negb (Ascii.eqb k "S"%char) &&
                    negb (Ascii.eqb k "F"%char))
          (list_ascii_of_string keyword).

(** The upper-case forms that can be told from a plain word at their first
    two code points: empty forms (there are none) and forms that start with
    an ASCII letter other than S and F followed by nothing or by an ASCII
    character are the ones left out. *)
Definition not_plain (l : list N) : bool :=
  match l with
  | [] => false
  | x :: xs =>
      (0x80 <=? x)%N || (x =? 0x53)%N || (x =? 0x46)%N ||
      match xs with y :: _ => (0x80 <=? y)%N | [] => false end
  end.

(** A range of [upper_ranges] whose upper-case forms are outside ASCII, or
    that is the one code point of the dotless i, or one that gives S. *)
Definition range_ok (r : N * N * N * N) : bool :=
  let '(first, last, _, target) := r in
  (0x80 <=? target)%N ||
  ((first =? last)%N && (((first =? 0x131)%N && (target =? 0x49)%N) || (target =? 0x53)%N)).

(** Two strings are the same up to the case of their ASCII letters. *)
Fixpoint eq_ignore_case (s k : string) : bool :=
  match s, k with
  | EmptyString, EmptyString => true
  | String c s', String d k' => Ascii.eqb (lower_char c) (lower_char d) && eq_ignore_case s' k'
  | _, _ => false
  end.

(** The characters of [s] other than [c], in order. *)
Fixpoint without_char (c : ascii) (s : string) : string :=
  match s with
  | EmptyString => EmptyString
  | String d r => if Ascii.eqb d c then without_char c r else String d (without_char c r)
  end.

Fixpoint count_char (c : ascii) (s : string) : nat :=
  match s with
  | EmptyString => 0
  | String d r => (if Ascii.eqb d c then 1 else 0) + count_char c r
  end.

(** Reading a single-quoted SQL literal: after the opening quote, a doubled
    quote stands for one quote, a lone quote must be the last character.
    [Some content] when the whole string is exactly one literal. *)
Fixpoint scan_literal_body (s : string) : option string :=
  match s with
  | EmptyString => None
  | String c r =>
      if Ascii.eqb c squote then
        match r with
        | EmptyString => Some EmptyString
        | String d r' =>
            if Ascii.eqb d squote then option_map (String squote) (scan_literal_body r')
            else None
        end
      else option_map (String c) (scan_literal_body r)
  end.

Definition parse_literal (s : string) : option string :=
  match s with
  | EmptyString => None
  | String c r => if Ascii.eqb c squote then scan_literal_body r else None
  end.

(** The answer of a check is an error. *)
Definition raised {A} (r : result A) : Prop :=
  match r with Err _ => True | Ok _ => False end.

(** The answer of a scan is a result whose status column [key] is not the
    string [ok] (no row at all included). *)
Definition reports_not_ok (key : string) (r : result (option row)) : Prop :=
  match r with
  | Err _ => False
  | Ok None => True
  | Ok (Some status) => strict_eq_str (get status key) "ok" = false
  end.

Definition reports_violations (r : result (list row)) : Prop :=
  match r with
  | Err _ => False
  | Ok rows => rows <> []
  end.


(** A row that has the single column [name], as [SELECT name] yields. *)
Definition name_only (table : row) : Prop := map fst table = ["name"].

Definition total_line (text : string) : bool := String.prefix "Total failed rows" text.

(** [m] adds events to the trace, all of them satisfying [P], and takes none
    away. *)
Definition emits_only {E : Env} {A} (P : event -> Prop) (m : M (E:=E) A) : Prop :=
  forall st, exists evs, trace (snd (m st)) = (trace st ++ evs)%list /\ Forall P evs.

Definition not_total_line (ev : event) : Prop :=
  match ev with
  | ConsoleLog text _ => total_line text = false
  | _ => True
  end.

Definition not_pg_query (ev : event) : Prop :=
  match ev with
  | PgQuery _ _ => False
  | _ => True
  end.

(** ** A small world to run the script in

    The source answers [db.get] and [db.all] from two queues, except the
    table listing, which it answers from [table_names]; the destination
    answers the catalog query from [catalog], turns [catalog] into
    [new_columns] when a CREATE TABLE reaches it and the catalog was empty,
    and answers every other statement from a queue.  An empty queue answers
    with no row. *)

Record script : Type := mkScript {
  table_names : list string;
  gets : list (result (option row));
  alls : list (result (list row));
  queries : list (result (list row));
  catalog : list row;
  new_columns : list row
}.

Definition script_get (sql : string) (w : script) : result (option row) * script :=
  match gets w with
  | [] => (Ok None, w)
  | a :: rest =>
      (a, mkScript (table_names w) rest (alls w) (queries w) (catalog w) (new_columns w))
  end.

Definition script_all (sql : string) (w : script) : result (list row) * script :=
  if String.eqb sql tables_query then
    (Ok (map (fun n => [("name", VStr n)]) (table_names w)), w)
  else
    match alls w with
    | [] => (Ok [], w)
    | a :: rest =>
        (a, mkScript (table_names w) (gets w) rest (queries w) (catalog w) (new_columns w))
    end.

Definition script_query (sql : string) (params : list string) (w : script)
  : result (list row) * script :=
  if String.eqb sql columns_query then (Ok (catalog w), w)
  else if String.prefix "CREATE TABLE" sql then
    (Ok [], mkScript (table_names w) (gets w) (alls w) (queries w)
              (match catalog w with [] => new_columns w | _ => catalog w end)
              (new_columns w))
  else
    match queries w with
    | [] => (Ok [], w)
    | a :: rest =>
        (a, mkScript (table_names w) (gets w) (alls w) rest (catalog w) (new_columns w))
    end.

(** Decimal digits of an integer-valued number (a fraction is cut off: the
    runs below print row counts only). *)
Definition script_number (n : float) : string :=
  match Prim2SF n with
  | S754_zero _ => "0"
  | S754_infinity s => if s then "-Infinity" else "Infinity"
  | S754_nan => "NaN"
  | S754_finite s m e =>
      let magnitude := Z.to_N (Z.shiftl (Zpos m) e) in
      (if s then "-" else "") +:+ NilEmpty.string_of_uint (N.to_uint magnitude)
  end.

Definition Script : Env := {|
  World := script;
  sqlite_run := fun _ w => w;
  sqlite_get := script_get;
  sqlite_all := script_all;
  pg_connect := fun w => (Ok tt, w);
  pg_query := script_query;
  Number_toString := script_number;
  Buffer_toString_utf8 := fun b => Ok b;
  Buffer_toString_latin1 := fun b => Ok b;
  Buffer_blocks_assignment := fun _ k => String.eqb k "length"
|}.

(** The one row of a scan that found nothing. *)
Definition status_ok (key : string) : result (option row) := Ok (Some [(key, VStr "ok")]).

(** A sound source with the one table [chat], of columns [id] and [title],
    whose first page is [page]; the destination has no such table yet and
    answers its statements other than the catalog query and the CREATE TABLE
    (the TRUNCATE, the INSERTs, the COMMIT) with [answers]. *)
Definition one_table_world (page : list row) (answers : list (result (list row))) : script :=
  mkScript ["chat"]
    [status_ok "integrity_check"; status_ok "quick_check";
     Ok (Some [("COUNT(*)", VNum 2)]); Ok (Some [("count", VNum 3)])]
    [Ok []; Ok [[("name", VStr "id"); ("type", VStr "INTEGER")];
                [("name", VStr "title"); ("type", VStr "TEXT")]];
     Ok page]
    answers
    [] [[("column_name", VStr "id"); ("data_type", VStr "integer")];
        [("column_name", VStr "title"); ("data_type", VStr "text")]].

(** Three rows, the third with the [id] of the second. *)
Definition three_rows : list row :=
  [[("id", VNum 1); ("title", VStr "a")];
   [("id", VNum 2); ("title", VStr "b")];
   [("id", VNum 2); ("title", VStr "c")]].

Definition duplicate_key : error := mkError "error" "duplicate key value violates unique constraint".

(** A source whose full scan reports damage. *)
Definition corrupt_world : script :=
  mkScript ["chat"]
    [Ok (Some [("integrity_check", VStr "*** in database main ***")]); status_ok "quick_check"]
    [] [] [] [].

(** The INSERT the script sends for a row: none when encoding the row
    throws. *)
Definition attempted_insert {E : Env} (safeTableName : string)
    (pgColumnTypes : gmap string value) (r : row) : list string :=
  match map_result (encode_value (E:=E) pgColumnTypes) r with
  | Ok values => [insert_query (E:=E) safeTableName (map getSafeIdentifier (map fst r)) values]
  | Err _ => []
  end.

(** A source with the table [chat] and a destination that does not have it
    yet: once created, its catalog lists the two columns. *)
Definition fresh_destination : script :=
  mkScript ["chat"] []
    [Ok [[("name", VStr "id"); ("type", VStr "INTEGER")];
         [("name", VStr "title"); ("type", VStr "TEXT")]]]
    [] []
    [[("column_name", VStr "id"); ("data_type", VStr "integer")];
     [("column_name", VStr "title"); ("data_type", VStr "text")]].

(** Every character. *)
Definition all_chars : list ascii := map ascii_of_nat (seq 0 256).

(** ** Further notions and a second small world *)

(** The events the [try] block of [migrate] can add to the trace: console
    lines, reads of the source, statements to the destination. *)
Definition body_event (ev : event) : Prop :=
  match ev with
  | ConsoleLog _ _ | ConsoleError _ _ | SqliteGet _ | SqliteAll _ | PgQuery _ _ => True
  | _ => False
  end.

(** The two events of the [finally] block. *)
Definition is_close (ev : event) : bool :=
  match ev with
  | SqliteClose | PgEnd => true
  | _ => false
  end.

(** [m] never ends in [process.exit]. *)
Definition never_exits {E : Env} {A} (m : M (E:=E) A) : Prop :=
  forall st c, fst (m st) <> Exit c.

Definition is_commit (sql : string) : bool := String.eqb sql "COMMIT".

(** The text of a page fetch before the offset. *)
Definition select_prefix (tableName : string) : string :=
  "SELECT * FROM `" +:+ tableName +:+ "` LIMIT " +:+ nat_to_string BATCH_SIZE +:+ " OFFSET ".

Fixpoint drop_chars (n : nat) (s : string) : string :=
  match n, s with
  | S n', String _ r => drop_chars n' r
  | _, _ => s
  end.

(** The offset a page fetch for [tableName] asks for. *)
Definition offset_of (tableName sql : string) : nat :=
  match NilEmpty.uint_of_string (drop_chars (String.length (select_prefix tableName)) sql) with
  | Some d => Nat.of_uint d
  | None => 0
  end.

(** A source that holds the rows [src] of one table and does not change, or
    whose every [db.all] fails with the error [src]; a destination that
    accepts every statement.  [db.all] is answered as a page fetch: at most
    [BATCH_SIZE] rows from the offset in the statement. *)
Definition steady_all (tableName : string) (src : result (list row)) (sql : string) (w : unit)
  : result (list row) * unit :=
  match src with
  | Ok data => (Ok (firstn BATCH_SIZE (skipn (offset_of tableName sql) data)), w)
  | Err e => (Err e, w)
  end.

Definition Steady (tableName : string) (src : result (list row)) : Env := {|
  World := unit;
  sqlite_run := fun _ w => w;
  sqlite_get := fun _ w => (Ok None, w);
  sqlite_all := steady_all tableName src;
  pg_connect := fun w => (Ok tt, w);
  pg_query := fun _ _ w => (Ok [], w);
  Number_toString := script_number;
  Buffer_toString_utf8 := fun b => Ok b;
  Buffer_toString_latin1 := fun b => Ok b;
  Buffer_blocks_assignment := fun _ k => String.eqb k "length"
|}.

(** The error of a source that cannot be read. *)
Definition count_fails : error := mkError "Error" "SQLITE_BUSY: database is locked".

(** The item of a CREATE TABLE for a source column whose name and type are
    strings. *)
Definition column_text (col : row) : string :=
  match get col "name", get col "type" with
  | VStr name, VStr type => getSafeIdentifier name +:+ " " +:+ sqliteToPgType type
  | _, _ => ""
  end.

Definition typed_column (col : row) : Prop :=
  exists name type, get col "name" = VStr name /\ get col "type" = VStr type.

(** The statements of a list other than the COMMITs. *)
Definition but_commits (sqls : list string) : list string :=
  List.filter (fun sql => negb (is_commit sql)) sqls.

(** A row encodes: its binary values, if any, can be decoded. *)
Definition encodes {E : Env} (pgColumnTypes : gmap string value) (r : row) : Prop :=
  exists values, map_result (encode_value (E:=E) pgColumnTypes) r = Ok values.

(** A table of two full pages and one row. *)
Definition long_table : list row := repeat [("id", VNum 7); ("title", VStr "x")] 1001.

(** The line of the per-table report for one entry of [failedRows]. *)
Definition failure_line (f : failure) : event :=
  let '(_, rowNum, error) := f in
  ConsoleLog ("Row " +:+ nat_to_string rowNum +:+ ": " +:+ error) NoArg.

(** The statements read from the source with [get] or [all], in order. *)
Definition source_reads (tr : list event) : list string :=
  flat_map (fun ev => match ev with SqliteGet sql | SqliteAll sql => [sql] | _ => [] end) tr.

(** The key under which a row of the catalog's answer is entered, and a row
    whose type is a string, as the catalog reports types. *)
Definition column_key {E : Env} (col : row) : string :=
  js_string (E:=E) (get col "column_name").

Definition reports_type (col : row) : Prop := exists type, get col "data_type" = VStr type.



Definition not_catalog_query (ev : event) : Prop :=
  match ev with
  | PgQuery sql _ => String.eqb sql columns_query = false
  | _ => True
  end.


(** * Properties *)

(** ** Strings *)

Lemma in_all_chars (c : ascii) : In c all_chars.
Proof.
  unfold all_chars. rewrite <- (ascii_nat_embedding c).
  apply in_map, in_seq. pose proof (nat_ascii_bounded c). lia.
Qed.

(** *** Code points and their UTF-8 form *)

Lemma byte_char (n : N) : (n < 256)%N -> byte (char n) = n.
Proof. apply N_ascii_embedding. Qed.

Lemma char_byte (c : ascii) : char (byte c) = c.
Proof. apply ascii_N_embedding. Qed.

Lemma byte_bounded (c : ascii) : (byte c < 256)%N.
Proof. apply N_ascii_bounded. Qed.

Lemma append_assoc3 (a b c : string) : (a +:+ b) +:+ c = a +:+ (b +:+ c).
Proof.
  induction a as [|x a IH]; [reflexivity|].
  change (String x ((a +:+ b) +:+ c) = String x (a +:+ (b +:+ c))). f_equal. exact IH.
Qed.

Lemma of_code_points_app (l1 l2 : list N) :
  of_code_points (l1 ++ l2) = of_code_points l1 +:+ of_code_points l2.
Proof.
  induction l1 as [|cp l1 IH]; [reflexivity|].
  cbn [app of_code_points fold_right]. fold (of_code_points (l1 ++ l2)).
  fold (of_code_points l1). rewrite IH. symmetry. apply append_assoc3.
Qed.

Lemma utf8_ascii (cp : N) : (cp < 0x80)%N -> utf8 cp = String (char cp) "".
Proof. intros H. unfold utf8. apply N.ltb_lt in H. rewrite H. reflexivity. Qed.

Lemma utf8_high (cp : N) :
  (0x80 <= cp)%N -> exists c r, utf8 cp = String c r /\ (0x80 <= byte c)%N.
Proof.
  intros H. unfold utf8.
  destruct (N.ltb_spec cp 0x80); [lia|].
  destruct (N.ltb_spec cp 0x800).
  { eexists _, _. split; [reflexivity|]. rewrite byte_char.
    - generalize (cp / 64)%N. intros q. lia.
    - assert (cp / 64 < 32)%N by (apply N.Div0.div_lt_upper_bound; lia). lia. }
  destruct (N.ltb_spec cp 0x10000).
  { eexists _, _. split; [reflexivity|]. rewrite byte_char.
    - generalize (cp / 4096)%N. intros q. lia.
    - assert (cp / 4096 < 16)%N by (apply N.Div0.div_lt_upper_bound; lia). lia. }
  destruct (N.ltb_spec cp 0x110000).
  { eexists _, _. split; [reflexivity|]. rewrite byte_char.
    - generalize (cp / 262144)%N. intros q. lia.
    - assert (cp / 262144 < 5)%N by (apply N.Div0.div_lt_upper_bound; lia). lia. }
  eexists _, _. split; [reflexivity|]. vm_compute. discriminate.
Qed.

(** *** The table *)

Lemma upper_ranges_ok : forallb range_ok upper_ranges = true.
Proof. vm_compute. reflexivity. Qed.

Lemma upper_special_ok :
  forallb (fun entry => not_plain (snd entry) && negb (fst entry =? 0x131)%N) upper_special = true.
Proof. vm_compute. reflexivity. Qed.

Lemma upper_point_dotless : upper_point 0x131 = [0x49%N].
Proof. vm_compute. reflexivity. Qed.

Lemma upper_point_high (cp : N) :
  (0x80 <= cp)%N -> cp <> 0x131%N -> not_plain (upper_point cp) = true.
Proof.
  intros Hhigh Hdot. unfold upper_point.
  destruct (N.ltb_spec cp 0x80); [lia|].
  destruct (List.find _ upper_special) as [[key l]|] eqn:Hfind.
  - apply find_some in Hfind. destruct Hfind as [Hin _].
    pose proof upper_special_ok as Hok. rewrite forallb_forall in Hok.
    specialize (Hok _ Hin). cbn [fst snd] in Hok.
    apply andb_true_iff in Hok. exact (proj1 Hok).
  - unfold upper_simple.
    destruct (List.find _ upper_ranges) as [[[[first last] step] target]|] eqn:Hrange.
    + apply find_some in Hrange. destruct Hrange as [Hin Hcp].
      pose proof upper_ranges_ok as Hok. rewrite forallb_forall in Hok.
      specialize (Hok _ Hin). cbn [range_ok] in Hok. cbn [in_range] in Hcp.
      apply andb_true_iff in Hcp. destruct Hcp as [Hcp _].
      apply andb_true_iff in Hcp. destruct Hcp as [Hlo Hhi].
      apply N.leb_le in Hlo, Hhi.
      cbn [not_plain].
      apply orb_true_iff in Hok. destruct Hok as [Hok|Hok].
      * apply N.leb_le in Hok.
        assert (H1 : (0x80 <=? target + (cp - first))%N = true) by (apply N.leb_le; lia).
        rewrite H1. reflexivity.
      * apply andb_true_iff in Hok. destruct Hok as [Hsame Hok].
        apply N.eqb_eq in Hsame. assert (cp = first) by lia. subst cp last.
        rewrite N.sub_diag, N.add_0_r.
        apply orb_true_iff in Hok. destruct Hok as [Hok|Hok].
        -- apply andb_true_iff in Hok. destruct Hok as [Hok _].
           apply N.eqb_eq in Hok. contradiction.
        -- rewrite Hok. rewrite !orb_true_r. reflexivity.
    + cbn [not_plain]. assert (H1 : (0x80 <=? cp)%N = true) by (apply N.leb_le; lia).
      rewrite H1. reflexivity.
Qed.

(** *** Plain words *)

Lemma upper_letter_facts (k : ascii) :
  is_upper_letter k = true ->
  (byte k < 0x80)%N /\
  upper_point (byte k) = [byte k] /\
  upper_point (byte (lower_char k)) = [byte k].
Proof.
  assert (H : forallb (fun k =>
                negb (is_upper_letter k) ||
                ((byte k <? 0x80)%N &&
                 bool_decide (upper_point (byte k) = [byte k]) &&
                 bool_decide (upper_point (byte (lower_char k)) = [byte k])))
              all_chars = true) by (vm_compute; reflexivity).
  rewrite forallb_forall in H. specialize (H k (in_all_chars k)).
  intros Hk. rewrite Hk in H. cbn [negb orb] in H.
  apply andb_true_iff in H. destruct H as [H H3].
  apply andb_true_iff in H. destruct H as [H1 H2].
  apply N.ltb_lt in H1. apply bool_decide_eq_true in H2, H3. auto.
Qed.

Lemma ascii_same_letter (cp : N) :
  (cp < 0x80)%N ->
  same_letter cp (char (if (0x61 <=? cp)%N && (cp <=? 0x7A)%N then cp - 0x20 else cp)%N) = true.
Proof.
  intros Hcp.
  assert (H : forallb (fun c =>
                let cp := byte c in
                negb (cp <? 0x80)%N ||
                same_letter cp
                  (char (if (0x61 <=? cp)%N && (cp <=? 0x7A)%N then cp - 0x20 else cp)%N))
              all_chars = true) by (vm_compute; reflexivity).
  rewrite forallb_forall in H. specialize (H (char cp) (in_all_chars _)).
  cbv zeta in H. rewrite byte_char in H by lia.
  apply N.ltb_lt in Hcp. rewrite Hcp in H. exact H.
Qed.

Lemma plain_word_cons (k : ascii) (t : string) :
  plain_word (String k t) = true ->
  is_upper_letter k = true /\ k <> "S"%char /\ k <> "F"%char /\ plain_word t = true.
Proof.
  unfold plain_word. cbn [list_ascii_of_string forallb]. intros H.
  apply andb_true_iff in H. destruct H as [H Ht].
  apply andb_true_iff in H. destruct H as [H HF].
  apply andb_true_iff in H. destruct H as [Hk HS].
  apply negb_true_iff, Ascii.eqb_neq in HS, HF. auto.
Qed.

Lemma high_byte_not_plain (c : ascii) (t : string) :
  (0x80 <= byte c)%N -> plain_word (String c t) = true -> False.
Proof.
  intros Hc H. apply plain_word_cons in H. destruct H as (Hk & _).
  apply upper_letter_facts in Hk. lia.
Qed.

Lemma encoded_high_not_plain (x : N) (rest : string) :
  (0x80 <= x)%N -> plain_word (utf8 x +:+ rest) = true -> False.
Proof.
  intros Hx H. destruct (utf8_high x Hx) as (c & r & Hu & Hc). rewrite Hu in H.
  exact (high_byte_not_plain c _ Hc H).
Qed.

Lemma not_plain_prefix (l : list N) (rest : string) :
  not_plain l = true -> plain_word (of_code_points l +:+ rest) = true -> False.
Proof.
  destruct l as [|x xs]; [discriminate|]. intros Hl H.
  cbn [of_code_points fold_right] in H. fold (of_code_points xs) in H.
  rewrite append_assoc3 in H.
  destruct (N.leb_spec 0x80 x) as [Hx|Hx]; [exact (encoded_high_not_plain x _ Hx H)|].
  rewrite (utf8_ascii x Hx) in H.
  change (plain_word (String (char x) (of_code_points xs +:+ rest)) = true) in H.
  apply plain_word_cons in H. destruct H as (_ & HS & HF & H).
  cbn [not_plain] in Hl.
  destruct (N.leb_spec 0x80 x); [lia|]. cbn [orb] in Hl.
  destruct (N.eqb_spec x 0x53) as [->|_]; [apply HS; reflexivity|].
  destruct (N.eqb_spec x 0x46) as [->|_]; [apply HF; reflexivity|].
  cbn [orb] in Hl. destruct xs as [|y ys]; [discriminate|].
  apply N.leb_le in Hl.
  cbn [of_code_points fold_right] in H. fold (of_code_points ys) in H.
  rewrite append_assoc3 in H. exact (encoded_high_not_plain y _ Hl H).
Qed.

(** Upper-casing gives a plain word only for the code points that spell it. *)
Lemma upper_plain_word (l : list N) (t : string) :
  plain_word t = true ->
  of_code_points (flat_map upper_point l) = t ->
  letters_match l t = true.
Proof.
  revert t. induction l as [|cp l IH]; intros t Hplain H.
  - cbn in H. subst t. reflexivity.
  - cbn [flat_map] in H. rewrite of_code_points_app in H.
    destruct (N.ltb_spec cp 0x80) as [Hcp|Hcp].
    + pose proof (ascii_same_letter cp Hcp) as Hsame.
      unfold upper_point in H. apply N.ltb_lt in Hcp. rewrite Hcp in H.
      apply N.ltb_lt in Hcp.
      set (u := (if (0x61 <=? cp)%N && (cp <=? 0x7A)%N then cp - 0x20 else cp)%N) in *.
      assert (Hu : (u < 0x80)%N).
      { subst u. destruct ((0x61 <=? cp)%N && (cp <=? 0x7A)%N); lia. }
      cbn [of_code_points fold_right] in H. rewrite (utf8_ascii u Hu) in H.
      change (String (char u) (of_code_points (flat_map upper_point l)) = t) in H.
      subst t. apply plain_word_cons in Hplain. destruct Hplain as (_ & _ & _ & Hplain).
      cbn [letters_match]. rewrite Hsame. exact (IH _ Hplain eq_refl).
    + destruct (N.eq_dec cp 0x131%N) as [->|Hdot].
      * rewrite upper_point_dotless in H.
        change (String "I"%char (of_code_points (flat_map upper_point l)) = t) in H.
        subst t. apply plain_word_cons in Hplain. destruct Hplain as (_ & _ & _ & Hplain).
        cbn [letters_match]. rewrite (IH _ Hplain eq_refl). reflexivity.
      * exfalso. subst t. exact (not_plain_prefix _ _ (upper_point_high cp Hcp Hdot) Hplain).
Qed.

Lemma same_letter_upper (cp : N) (k : ascii) :
  is_upper_letter k = true -> same_letter cp k = true -> upper_point cp = [byte k].
Proof.
  intros Hk H. destruct (upper_letter_facts k Hk) as (_ & Hup & Hlow).
  unfold same_letter in H.
  apply orb_true_iff in H. destruct H as [H|H].
  - apply orb_true_iff in H. destruct H as [H|H]; apply N.eqb_eq in H; subst cp; assumption.
  - apply andb_true_iff in H. destruct H as [H HI].
    apply N.eqb_eq in H. apply Ascii.eqb_eq in HI. subst cp k. exact upper_point_dotless.
Qed.

Lemma letters_match_upper (l : list N) (t : string) :
  plain_word t = true ->
  letters_match l t = true ->
  of_code_points (flat_map upper_point l) = t.
Proof.
  revert t. induction l as [|cp l IH]; intros [|k t] Hplain H; try discriminate H.
  - reflexivity.
  - cbn [letters_match] in H. apply andb_true_iff in H. destruct H as [Hk H].
    apply plain_word_cons in Hplain. destruct Hplain as (Hupper & _ & _ & Hplain).
    cbn [flat_map]. rewrite of_code_points_app, (same_letter_upper cp k Hupper Hk).
    cbn [of_code_points fold_right].
    rewrite utf8_ascii by (apply upper_letter_facts; exact Hupper).
    rewrite char_byte.
    change (String k (of_code_points (flat_map upper_point l)) = String k t).
    f_equal. exact (IH t Hplain H).
Qed.

(** Comparing the upper-case form with a plain word is asking whether the
    string spells the word. *)
Lemma toUpperCase_eqb (s keyword : string) :
  plain_word keyword = true ->
  String.eqb (toUpperCase s) keyword = case_variant s keyword.
Proof.
  intros Hplain. apply eq_true_iff_eq. rewrite String.eqb_eq.
  unfold toUpperCase, case_variant. split.
  - apply upper_plain_word. exact Hplain.
  - apply letters_match_upper. exact Hplain.
Qed.

(** *** ASCII strings *)

Lemma points_from_ascii (fuel : nat) (s : string) :
  String.length s <= fuel -> is_ascii s = true ->
  points_from fuel s = map byte (list_ascii_of_string s).
Proof.
  revert fuel. induction s as [|c s IH]; intros fuel Hlen Hs.
  - destruct fuel; reflexivity.
  - destruct fuel as [|fuel]; [cbn in Hlen; lia|].
    unfold is_ascii in Hs. cbn [list_ascii_of_string forallb] in Hs.
    apply andb_true_iff in Hs. destruct Hs as [Hc Hs]. apply N.ltb_lt in Hc.
    cbn [points_from list_ascii_of_string map]. unfold head_point.
    destruct (N.ltb_spec (byte c) 0xC0); [|lia].
    f_equal. apply IH; [cbn in Hlen; lia | exact Hs].
Qed.

Lemma same_letter_ascii (c k : ascii) :
  (byte c < 0x80)%N -> is_upper_letter k = true ->
  same_letter (byte c) k = Ascii.eqb (lower_char c) (lower_char k).
Proof.
  assert (H : forallb (fun c => forallb (fun k =>
                negb (byte c <? 0x80)%N || negb (is_upper_letter k) ||
                Bool.eqb (same_letter (byte c) k)
                         (Ascii.eqb (lower_char c) (lower_char k))) all_chars) all_chars = true)
    by (vm_compute; reflexivity).
  rewrite forallb_forall in H. specialize (H c (in_all_chars c)).
  rewrite forallb_forall in H. specialize (H k (in_all_chars k)).
  intros Hc Hk. apply N.ltb_lt in Hc. rewrite Hc, Hk in H. cbn [negb orb] in H.
  apply Bool.eqb_prop in H. exact H.
Qed.

Lemma case_variant_ascii (s keyword : string) :
  is_ascii s = true -> plain_word keyword = true ->
  case_variant s keyword = eq_ignore_case s keyword.
Proof.
  intros Hs. unfold case_variant, code_points.
  rewrite (points_from_ascii _ s (le_n _) Hs).
  revert keyword. induction s as [|c s IH]; intros [|k keyword] Hplain; try reflexivity.
  unfold is_ascii in Hs. cbn [list_ascii_of_string forallb] in Hs.
  apply andb_true_iff in Hs. destruct Hs as [Hc Hs]. apply N.ltb_lt in Hc.
  apply plain_word_cons in Hplain. destruct Hplain as (Hk & _ & _ & Hplain).
  cbn [list_ascii_of_string map letters_match eq_ignore_case].
  rewrite (same_letter_ascii c k Hc Hk), (IH Hs keyword Hplain). reflexivity.
Qed.

Lemma eq_ignore_case_lower (s k : string) :
  eq_ignore_case s (toLowerCase k) = eq_ignore_case s k.
Proof.
  assert (H : forall d, lower_char (lower_char d) = lower_char d).
  { intros d.
    assert (Hall : forallb (fun d => Ascii.eqb (lower_char (lower_char d)) (lower_char d))
                     all_chars = true) by (vm_compute; reflexivity).
    rewrite forallb_forall in Hall. apply Ascii.eqb_eq, Hall, in_all_chars. }
  revert k. induction s as [|c s IH]; intros [|d k]; try reflexivity.
  cbn [toLowerCase map_chars eq_ignore_case]. fold (toLowerCase k).
  rewrite H, IH. reflexivity.
Qed.

(** *** Lengths *)

Lemma letters_match_length (l : list N) (t : string) :
  letters_match l t = true ->
  list_sum (map (fun cp => if (cp <? 0x10000)%N then 1 else 2) l) = String.length t.
Proof.
  revert t. induction l as [|cp l IH]; intros [|k t] H; try discriminate H.
  - reflexivity.
  - cbn [letters_match] in H. apply andb_true_iff in H. destruct H as [Hk H].
    specialize (IH t H). unfold list_sum in *.
    cbn [map fold_right String.length]. rewrite IH.
    assert (Hcp : (cp < 0x10000)%N).
    { unfold same_letter in Hk.
      pose proof (byte_bounded k). pose proof (byte_bounded (lower_char k)).
      apply orb_true_iff in Hk. destruct Hk as [Hk|Hk].
      - apply orb_true_iff in Hk. destruct Hk as [Hk|Hk]; apply N.eqb_eq in Hk; lia.
      - apply andb_true_iff in Hk. destruct Hk as [Hk _]. apply N.eqb_eq in Hk. lia. }
    apply N.ltb_lt in Hcp. rewrite Hcp. reflexivity.
Qed.

Lemma includes_In (l : list string) (x : string) : includes l x = true <-> In x l.
Proof.
  unfold includes. rewrite existsb_exists. split.
  - intros (y & Hy & Heq). apply String.eqb_eq in Heq. subst. exact Hy.
  - intros H. exists x. split; [exact H | apply String.eqb_refl].
Qed.

Lemma replace_all_empty (c : ascii) (s : string) : replace_all c "" s = without_char c s.
Proof. induction s as [|d s IH]; simpl; [reflexivity|]. rewrite IH. reflexivity. Qed.

Lemma count_char_append (c : ascii) (s t : string) :
  count_char c (s +:+ t) = count_char c s + count_char c t.
Proof. induction s as [|d s IH]; simpl; [reflexivity|]. rewrite IH. lia. Qed.

Lemma count_char_without (c : ascii) (s : string) : count_char c (without_char c s) = 0.
Proof.
  induction s as [|d s IH]; simpl; [reflexivity|].
  destruct (Ascii.eqb d c) eqn:Hd; simpl; [exact IH|]. rewrite Hd, IH. reflexivity.
Qed.

Lemma count_squote_doubled (s : string) :
  count_char squote (replace_all squote "''" s) = 2 * count_char squote s.
Proof.
  induction s as [|d s IH]; [reflexivity|].
  cbn [replace_all count_char].
  destruct (Ascii.eqb d squote) eqn:Hd.
  - rewrite count_char_append, IH. change (count_char squote "''") with 2. lia.
  - cbn [count_char]. rewrite Hd, IH. lia.
Qed.

Lemma count_other_doubled (c : ascii) (s : string) :
  Ascii.eqb squote c = false ->
  count_char c (replace_all squote "''" s) = count_char c s.
Proof.
  intros Hc. induction s as [|d s IH]; [reflexivity|].
  cbn [replace_all count_char].
  destruct (Ascii.eqb d squote) eqn:Hd.
  - apply Ascii.eqb_eq in Hd. subst d. rewrite count_char_append, IH.
    cbn [count_char]. unfold squote in *. rewrite Hc. lia.
  - cbn [count_char]. rewrite IH. reflexivity.
Qed.

Lemma scan_doubled (t : string) :
  scan_literal_body (replace_all squote "''" t +:+ String squote EmptyString) = Some t.
Proof.
  induction t as [|d t IH]; [reflexivity|].
  simpl replace_all. destruct (Ascii.eqb d squote) eqn:Hd.
  - apply Ascii.eqb_eq in Hd. subst d.
    change (scan_literal_body
              (String squote (String squote
                 (replace_all squote "''" t +:+ String squote EmptyString)))
            = Some (String squote t)).
    cbn [scan_literal_body]. rewrite !Ascii.eqb_refl. rewrite IH. reflexivity.
  - change (scan_literal_body
              (String d (replace_all squote "''" t +:+ String squote EmptyString))
            = Some (String d t)).
    cbn [scan_literal_body]. rewrite Hd, IH. reflexivity.
Qed.

(** ** The type translator and the safe identifier *)

(** C3, as the script has it: [sqliteToPgType] compares the declared type
    with the four keywords without regard to case, as [toUpperCase] decides
    it: a declared type that spells integer gives INTEGER, real gives DOUBLE
    PRECISION, text gives TEXT, blob gives BYTEA (the destination's binary
    type), and every other string gives TEXT.  To spell a keyword is to have
    its letters, each in either case, where the dotless i (U+0131) counts as
    a lower-case i.  For a declared type made of ASCII characters this is
    equality up to the case of the ASCII letters. *)
Theorem sqliteToPgType_case_insensitive (sqliteType : string) :
  sqliteToPgType sqliteType =
    (if case_variant sqliteType "INTEGER" then "INTEGER"
     else if case_variant sqliteType "REAL" then "DOUBLE PRECISION"
     else if case_variant sqliteType "TEXT" then "TEXT"
     else if case_variant sqliteType "BLOB" then "BYTEA"
     else "TEXT") /\
  (is_ascii sqliteType = true ->
   case_variant sqliteType "INTEGER" = eq_ignore_case sqliteType "integer" /\
   case_variant sqliteType "REAL" = eq_ignore_case sqliteType "real" /\
   case_variant sqliteType "TEXT" = eq_ignore_case sqliteType "text" /\
   case_variant sqliteType "BLOB" = eq_ignore_case sqliteType "blob").
Proof.
  split.
  - unfold sqliteToPgType. cbv zeta.
    rewrite !toUpperCase_eqb by reflexivity. reflexivity.
  - intros Hs.
    change "integer" with (toLowerCase "INTEGER").
    change "real" with (toLowerCase "REAL").
    change "text" with (toLowerCase "TEXT").
    change "blob" with (toLowerCase "BLOB").
    rewrite !eq_ignore_case_lower.
    repeat split; apply case_variant_ascii; (exact Hs || reflexivity).
Qed.

Lemma sqliteToPgType_case_insensitive_witness :
  case_variant "Integer" "INTEGER" = eq_ignore_case "Integer" "integer" /\
  sqliteToPgType "Integer" = "INTEGER".
Proof.
  split.
  - exact (proj1 (proj2 (sqliteToPgType_case_insensitive "Integer") eq_refl)).
  - reflexivity.
Defined.

(** C3, as the specification words it, fails: the declared type spelled with
    a dotless i is none of the four keywords up to the case of its letters,
    and it is translated to INTEGER, not to TEXT. *)
Lemma sqliteToPgType_dotless_i :
  eq_ignore_case "ınteger" "integer" = false /\
  eq_ignore_case "ınteger" "real" = false /\
  eq_ignore_case "ınteger" "text" = false /\
  eq_ignore_case "ınteger" "blob" = false /\
  sqliteToPgType "ınteger" = "INTEGER".
Proof. vm_compute. repeat split; reflexivity. Qed.

(** C4: [getSafeIdentifier] wraps the identifier, as it is, in double quotes
    when its lower-cased form is one of the reserved words, and gives back
    every other identifier unchanged. *)
Theorem getSafeIdentifier_quotes_reserved (identifier : string) :
  (In (toLowerCase identifier) reservedKeywords ->
     getSafeIdentifier identifier = String dquote identifier +:+ String dquote EmptyString) /\
  (~ In (toLowerCase identifier) reservedKeywords ->
     getSafeIdentifier identifier = identifier).
Proof.
  unfold getSafeIdentifier. split; intros H.
  - apply includes_In in H. rewrite H. reflexivity.
  - destruct (includes reservedKeywords (toLowerCase identifier)) eqn:Hi; [|reflexivity].
    apply includes_In in Hi. contradiction.
Qed.

Lemma getSafeIdentifier_quotes_reserved_witness :
  getSafeIdentifier "Order" = String dquote "Order" +:+ String dquote EmptyString /\
  getSafeIdentifier "orders" = "orders".
Proof.
  split.
  - apply (proj1 (getSafeIdentifier_quotes_reserved "Order")). vm_compute. tauto.
  - apply (proj2 (getSafeIdentifier_quotes_reserved "orders")). vm_compute.
    intros H. repeat (destruct H as [H|H]; [discriminate H|]). exact H.
Defined.

(** ** The row encoder *)

(** [n === 1] holds for the number 1 only. *)
Lemma float_eqb_one (n : float) : PrimFloat.eqb n 1 = true -> n = 1%float.
Proof.
  rewrite FloatAxioms.eqb_spec. intros H. apply Prim2SF_inj.
  change (Prim2SF 1) with (S754_finite false 4503599627370496%positive (-52)%Z) in *.
  remember 4503599627370496%positive as p52 eqn:Hp.
  unfold SFeqb, SFcompare in H.
  destruct (Prim2SF n) as [s|s| |s m e]; try (destruct s; discriminate H); try discriminate H.
  destruct s; [discriminate H|].
  destruct (Z.compare_spec e (-52)%Z) as [He|He|He]; try discriminate H.
  destruct (PosDef.Pos.compare_cont Eq m p52) eqn:Hm; try discriminate H.
  apply Pos.compare_eq_iff in Hm.
  subst. reflexivity.
Qed.

Lemma strict_eq_one_false (v : value) : v <> VNum 1 -> strict_eq_one v = false.
Proof.
  intros Hv. destruct v as [| |n| |]; try reflexivity. simpl.
  destruct (PrimFloat.eqb n 1) eqn:Hn; [|reflexivity].
  apply float_eqb_one in Hn. subst n. contradiction.
Qed.

Section Encoder.
Context {E : Env}.
Implicit Types (pgColumnTypes : gmap string value) (key : string) (v : value).

(** C6: the encoder tries its rules in order.  A null value becomes the
    keyword NULL whatever the column's type, in the source or in the
    destination.  Otherwise, when the destination reports the column as
    boolean, the number 1 becomes true and every other value that is not null
    becomes false. *)
Theorem encode_value_null_then_boolean pgColumnTypes key v :
  encode_value (E:=E) pgColumnTypes (key, VNull) = Ok (VStr "NULL") /\
  (pgColumnTypes !! key = Some (VStr "boolean") ->
     encode_value (E:=E) pgColumnTypes (key, VNum 1) = Ok (VStr "true") /\
     (v <> VNull -> v <> VNum 1 ->
        encode_value (E:=E) pgColumnTypes (key, v) = Ok (VStr "false"))).
Proof.
  split; [reflexivity|]. intros Hbool. unfold encode_value. rewrite Hbool. simpl.
  split; [reflexivity|]. intros Hnull Hone.
  rewrite (strict_eq_one_false v Hone).
  destruct v; try reflexivity. contradiction.
Qed.

(** C7, as the script has it: a text value that reaches the text rule (the
    destination does not report its column as boolean) is encoded by
    [encode_text]: the result
    holds no NUL character, holds twice the quotes of the value inside one
    opening and one closing quote, and reads back, as one single-quoted
    literal, to the value without its NUL characters. *)
Theorem encode_text_is_quoted_literal pgColumnTypes key (text : string) :
  strict_eq_str (default VUndefined (pgColumnTypes !! key)) "boolean" = false ->
  encode_value (E:=E) pgColumnTypes (key, VStr text) = Ok (VStr (encode_text text)) /\
  count_char NUL (encode_text text) = 0 /\
  count_char squote (encode_text text) = 2 * count_char squote text + 2 /\
  parse_literal (encode_text text) = Some (without_char NUL text).
Proof.
  intros Htype. split; [|split; [|split]].
  - unfold encode_value. simpl. rewrite Htype. reflexivity.
  - unfold encode_text, quoted. rewrite count_char_append. cbn [count_char].
    rewrite count_other_doubled by reflexivity.
    rewrite replace_all_empty, count_char_without. reflexivity.
  - unfold encode_text, quoted. rewrite count_char_append. cbn [count_char].
    rewrite count_squote_doubled, replace_all_empty.
    assert (Hsame : forall s, count_char squote (without_char NUL s) = count_char squote s).
    { induction s as [|d s IH]; [reflexivity|]. cbn [without_char count_char].
      destruct (Ascii.eqb d NUL) eqn:Hd.
      - apply Ascii.eqb_eq in Hd. subst d. rewrite IH. reflexivity.
      - cbn [count_char]. rewrite IH. reflexivity. }
    rewrite Hsame. change (Ascii.eqb squote squote) with true. cbv iota. lia.
  - unfold encode_text, quoted, parse_literal.
    change (Ascii.eqb squote squote) with true. cbv iota.
    rewrite replace_all_empty. apply scan_doubled.
Qed.

End Encoder.

Lemma encode_value_null_then_boolean_witness :
  encode_value (E:=Script) {["active" := VStr "boolean"]} ("active", VNum 1) = Ok (VStr "true") /\
  encode_value (E:=Script) {["active" := VStr "boolean"]} ("active", VStr "yes") = Ok (VStr "false").
Proof.
  destruct (encode_value_null_then_boolean (E:=Script)
              {["active" := VStr "boolean"]} "active" (VStr "yes")) as [_ H].
  destruct (H eq_refl) as [Htrue Hfalse].
  split; [exact Htrue|]. apply Hfalse; discriminate.
Defined.

Lemma encode_text_is_quoted_literal_witness :
  encode_value (E:=Script) ∅ ("title", VStr "it's") = Ok (VStr "'it''s'") /\
  parse_literal (encode_text "it's") = Some "it's".
Proof.
  destruct (encode_text_is_quoted_literal (E:=Script) ∅ "title" "it's")
    as (Henc & _ & _ & Hparse); [reflexivity|].
  split; [exact Henc | exact Hparse].
Defined.

(** C7, as the specification words it, fails for a text value in a column
    that the destination reports as boolean: the boolean rule comes first,
    and the value is encoded as the bare word false, which holds none of its
    quotes and is no quoted literal. *)
Lemma text_in_boolean_column_is_not_quoted :
  encode_value (E:=Script) {["done" := VStr "boolean"]} ("done", VStr "it's") =
    Ok (VStr "false") /\
  count_char squote "false" = 0 /\
  parse_literal "false" = None.
Proof. vm_compute. repeat split; reflexivity. Qed.

(** ** Running a sequence *)

Lemma bind_val {E : Env} {A B} (m : M (E:=E) A) (k : A -> M (E:=E) B) st a st' :
  m st = (Val a, st') -> bind m k st = k a st'.
Proof. intros H. unfold bind. rewrite H. reflexivity. Qed.

(** ** What a block adds to the trace *)

Section Emits.
Context {E : Env} (P : event -> Prop).

Local Ltac start st := intros st; cbn.
Local Ltac same := exists []; split; [symmetry; apply app_nil_r | constructor].

Lemma emits_ret {A} (a : A) : emits_only (E:=E) P (ret a).
Proof. start st. same. Qed.

Lemma emits_throw {A} (e : error) : emits_only (E:=E) P (throw (A:=A) e).
Proof. start st. same. Qed.

Lemma emits_exit {A} (c : nat) : emits_only (E:=E) P (exit (A:=A) c).
Proof. start st. same. Qed.

Lemma emits_diverge {A} : emits_only (E:=E) P (diverge (A:=A)).
Proof. start st. same. Qed.

Lemma emits_lift_result {A} (r : result A) : emits_only (E:=E) P (lift_result r).
Proof. destruct r; [apply emits_ret | apply emits_throw]. Qed.

Lemma emits_emit (ev : event) : P ev -> emits_only (E:=E) P (emit ev).
Proof. intros Hev st. cbn. exists [ev]. split; [reflexivity | repeat constructor; exact Hev]. Qed.

Lemma emits_call {A} (ev : event) (f : World E -> result A * World E) :
  P ev -> emits_only (E:=E) P (call ev f).
Proof.
  intros Hev st. unfold call. destruct (f (world st)) as [[a|e] w]; cbn;
    (exists [ev]; split; [reflexivity | repeat constructor; exact Hev]).
Qed.

Lemma emits_state_read {A} (f : state E -> A) : emits_only (E:=E) P (fun st => (Val (f st), st)).
Proof. start st. same. Qed.

Lemma emits_set_processedRows (n : nat) : emits_only (E:=E) P (set_processedRows n).
Proof. start st. same. Qed.

Lemma emits_set_failedRows (l : list failure) : emits_only (E:=E) P (set_failedRows l).
Proof. start st. same. Qed.

(** Sequencing, when the continuation is only known to behave on the values
    [m] can really give. *)
Lemma emits_bind_from {A B} (Q : A -> Prop) (m : M (E:=E) A) (k : A -> M (E:=E) B) :
  (forall st a st', m st = (Val a, st') -> Q a) ->
  emits_only P m -> (forall a, Q a -> emits_only P (k a)) -> emits_only P (bind m k).
Proof.
  intros HQ Hm Hk st. unfold bind. destruct (Hm st) as (evs & Htr & Hevs).
  destruct (m st) as [[a|e|c|] st'] eqn:Hrun; cbn in Htr; try (exists evs; split; assumption).
  destruct (Hk a (HQ _ _ _ Hrun) st') as (evs' & Htr' & Hevs').
  exists (evs ++ evs')%list. split.
  - rewrite Htr', Htr, app_assoc. reflexivity.
  - apply Forall_app; split; assumption.
Qed.

Lemma emits_bind {A B} (m : M (E:=E) A) (k : A -> M (E:=E) B) :
  emits_only P m -> (forall a, emits_only P (k a)) -> emits_only P (bind m k).
Proof.
  intros Hm Hk. apply (emits_bind_from (fun _ => True)); auto.
Qed.

Lemma emits_try_catch {A} (m : M (E:=E) A) (h : error -> M (E:=E) A) :
  emits_only P m -> (forall e, emits_only P (h e)) -> emits_only P (try_catch m h).
Proof.
  intros Hm Hh st. unfold try_catch. destruct (Hm st) as (evs & Htr & Hevs).
  destruct (m st) as [[a|e|c|] st']; cbn in Htr; try (exists evs; split; assumption).
  destruct (Hh e st') as (evs' & Htr' & Hevs').
  exists (evs ++ evs')%list. split.
  - rewrite Htr', Htr, app_assoc. reflexivity.
  - apply Forall_app; split; assumption.
Qed.

Lemma emits_try_finally {A} (m : M (E:=E) A) (f : M (E:=E) unit) :
  emits_only P m -> emits_only P f -> emits_only P (try_finally m f).
Proof.
  intros Hm Hf st. unfold try_finally. destruct (Hm st) as (evs & Htr & Hevs).
  destruct (m st) as [[a|e|c|] st']; cbn in Htr; try (exists evs; split; assumption).
  - destruct (emits_bind f (fun _ => ret a) Hf (fun _ => emits_ret a) st')
      as (evs' & Htr' & Hevs').
    exists (evs ++ evs')%list. split.
    + rewrite Htr', Htr, app_assoc. reflexivity.
    + apply Forall_app; split; assumption.
  - destruct (emits_bind f (fun _ => throw (A:=A) e) Hf (fun _ => emits_throw e) st')
      as (evs' & Htr' & Hevs').
    exists (evs ++ evs')%list. split.
    + rewrite Htr', Htr, app_assoc. reflexivity.
    + apply Forall_app; split; assumption.
Qed.

Lemma emits_for_each {A} (l : list A) (body : A -> M (E:=E) unit) :
  (forall x, emits_only P (body x)) -> emits_only P (for_each l body).
Proof.
  intros Hbody. induction l as [|x l IH]; cbn [for_each].
  - apply emits_ret.
  - apply emits_bind; [apply Hbody | intros _; exact IH].
Qed.

Lemma emits_map_M {A B} (f : A -> M (E:=E) B) (l : list A) :
  (forall x, emits_only P (f x)) -> emits_only P (map_M f l).
Proof.
  intros Hf. induction l as [|x l IH]; cbn [map_M].
  - apply emits_ret.
  - apply emits_bind; [apply Hf | intros y].
    apply emits_bind; [exact IH | intros ys; apply emits_ret].
Qed.

End Emits.

Lemma no_pg_statements (tr : list event) : Forall not_pg_query tr -> pg_statements tr = [].
Proof.
  induction 1 as [|ev tr Hev _ IH]; [reflexivity|].
  unfold pg_statements in *. cbn [flat_map]. rewrite IH.
  destruct ev; try reflexivity. destruct Hev.
Qed.

Lemma pg_statements_app (tr1 tr2 : list event) :
  pg_statements (tr1 ++ tr2) = (pg_statements tr1 ++ pg_statements tr2)%list.
Proof. unfold pg_statements. apply flat_map_app. Qed.

Create HintDb emits.

#[local] Hint Resolve emits_ret emits_throw emits_exit emits_diverge emits_lift_result
  emits_set_processedRows emits_set_failedRows : emits.

Lemma emits_get_processedRows {E : Env} (P : event -> Prop) :
  emits_only (E:=E) P get_processedRows.
Proof. apply (emits_state_read P processedRows). Qed.

Lemma emits_get_failedRows {E : Env} (P : event -> Prop) :
  emits_only (E:=E) P get_failedRows.
Proof. apply (emits_state_read P failedRows). Qed.

Lemma emits_prop_of {E : Env} (P : event -> Prop) (o : option row) (key : string) :
  emits_only (E:=E) P (prop_of o key).
Proof. destruct o; [apply emits_ret | apply emits_throw]. Qed.

Lemma emits_string_receiver {E : Env} (P : event -> Prop) (expr method : string) (v : value) :
  emits_only (E:=E) P (string_receiver expr method v).
Proof. destruct v; first [apply emits_ret | apply emits_throw]. Qed.

#[local] Hint Resolve emits_get_processedRows emits_get_failedRows emits_prop_of
  emits_string_receiver : emits.

(** One step of a proof that a block only emits events satisfying [P]: follow
    the shape of the block. *)
Ltac emits_step :=
  match goal with
  | |- emits_only _ (bind _ _) => apply emits_bind; [|intros ?]
  | |- emits_only _ (try_catch _ _) => apply emits_try_catch; [|intros ?]
  | |- emits_only _ (try_finally _ _) => apply emits_try_finally
  | |- emits_only _ (for_each _ _) => apply emits_for_each; intros ?
  | |- emits_only _ (map_M _ _) => apply emits_map_M; intros ?
  | |- emits_only _ (console_log _ _) => apply emits_emit; first [exact I | reflexivity]
  | |- emits_only _ (console_error _ _) => apply emits_emit; exact I
  | |- emits_only _ (emit _) => apply emits_emit; exact I
  | |- emits_only _ (sqliteRun _) => apply emits_call; exact I
  | |- emits_only _ (sqliteGet _) => apply emits_call; exact I
  | |- emits_only _ (sqliteAll _) => apply emits_call; exact I
  | |- emits_only _ pgConnect => apply emits_call; exact I
  | |- emits_only _ (pgQuery _ _) => apply emits_call; first [exact I | reflexivity]
  | |- emits_only _ (if ?b then _ else _) => destruct b
  | |- emits_only _ (match ?x with _ => _ end) => destruct x
  | |- emits_only _ _ => solve [auto with emits]
  end.

Ltac emits := repeat emits_step.

Section NoPgQuery.
Context {E : Env}.

Lemma connect_sends_nothing : emits_only (E:=E) not_pg_query connect.
Proof. unfold connect. emits. Qed.

Lemma checkSqliteIntegrity_sends_nothing :
  emits_only (E:=E) not_pg_query checkSqliteIntegrity.
Proof. unfold checkSqliteIntegrity. emits. Qed.

End NoPgQuery.

Section NoTotalLine.
Context {E : Env}.

Lemma checkSqliteIntegrity_quiet : emits_only (E:=E) not_total_line checkSqliteIntegrity.
Proof. unfold checkSqliteIntegrity. emits. Qed.

Lemma insert_row_quiet tableName safeTableName pgColumnTypes r :
  emits_only (E:=E) not_total_line (insert_row tableName safeTableName pgColumnTypes r).
Proof. unfold insert_row. emits. Qed.

#[local] Hint Resolve insert_row_quiet : emits.

Lemma batch_turn_quiet tableName safeTableName pgColumnTypes totalRows :
  emits_only (E:=E) not_total_line (batch_turn tableName safeTableName pgColumnTypes totalRows).
Proof. unfold batch_turn. emits. Qed.

Lemma batch_loop_quiet fuel tableName safeTableName pgColumnTypes totalRows :
  emits_only (E:=E) not_total_line (batch_loop fuel tableName safeTableName pgColumnTypes totalRows).
Proof.
  induction fuel as [|fuel IH]; cbn [batch_loop]; [apply emits_diverge|].
  apply emits_bind; [apply batch_turn_quiet|]. intros [|]; [apply emits_ret | exact IH].
Qed.

Lemma schema_loop_quiet fuel tableName retryCount :
  emits_only (E:=E) not_total_line (schema_loop fuel tableName retryCount).
Proof.
  revert retryCount. induction fuel as [|fuel IH]; intros retryCount; cbn [schema_loop].
  - emits.
  - destruct (Nat.ltb retryCount MAX_RETRIES); [|apply emits_ret].
    apply emits_bind; [emits|]. intros [rows|n]; [apply emits_ret | apply IH].
Qed.

Lemma prepare_table_quiet tableName safeTableName :
  emits_only (E:=E) not_total_line (prepare_table tableName safeTableName).
Proof.
  unfold prepare_table, truncate_table, fetch_schema.
  pose proof schema_loop_quiet. unfold create_table, column_def. emits.
Qed.

Lemma report_table_quiet tableName : emits_only (E:=E) not_total_line (report_table tableName).
Proof. unfold report_table. emits. Qed.

Lemma migrate_table_quiet fuel table : emits_only (E:=E) not_total_line (migrate_table fuel table).
Proof.
  unfold migrate_table.
  pose proof prepare_table_quiet. pose proof batch_loop_quiet. pose proof report_table_quiet.
  emits.
Qed.

End NoTotalLine.

(** ** The end-of-run summary *)

Lemma name_only_no_failedRows (table : row) :
  name_only table -> get table "failedRows" = VUndefined.
Proof.
  unfold name_only. destruct table as [|[k v] [|? ?]]; cbn; intros H; try discriminate H.
  injection H as ->. reflexivity.
Qed.

Lemma totalFailedRows_from (tables : list row) (start : nat) :
  Forall name_only tables ->
  fold_left (fun sum table => sum + length_or_zero (get table "failedRows")) tables start = start.
Proof.
  intros H. revert start. induction H as [|table tables Ht _ IH]; intros start; cbn [fold_left].
  - reflexivity.
  - rewrite (name_only_no_failedRows table Ht). cbn [length_or_zero].
    rewrite Nat.add_0_r. apply IH.
Qed.

Lemma script_lists_names_only (w : script) (rows : list row) (w' : script) :
  sqlite_all Script tables_query w = (Ok rows, w') -> Forall name_only rows.
Proof.
  intros H. change (script_all tables_query w = (Ok rows, w')) in H.
  unfold script_all in H. rewrite String.eqb_refl in H. injection H as <- _.
  apply List.Forall_forall. intros table Hin. apply in_map_iff in Hin.
  destruct Hin as (n & <- & _). reflexivity.
Qed.

Section Summary.
Context {E : Env}.

(** The table listing gives rows with the single column [name]. *)
Hypothesis listing_names_only :
  forall (w : World E) (rows : list row) (w' : World E),
    sqlite_all E tables_query w = (Ok rows, w') -> Forall name_only rows.

Lemma summary_quiet (tables : list row) :
  Forall name_only tables -> emits_only (E:=E) not_total_line (summary tables).
Proof.
  intros H. unfold summary, totalFailedRows. rewrite (totalFailedRows_from tables 0 H).
  cbn. emits.
Qed.

Lemma migrate_body_quiet (fuel : nat) : emits_only (E:=E) not_total_line (migrate_body fuel).
Proof.
  unfold migrate_body.
  apply emits_bind; [apply checkSqliteIntegrity_quiet | intros ok].
  apply emits_bind; [emits | intros _].
  apply (emits_bind_from not_total_line (Forall name_only)).
  - intros st rows st'. unfold sqliteAll, call.
    destruct (sqlite_all E tables_query (world st)) as [[rows0|e] w] eqn:Hq; cbn.
    + intros Heq. injection Heq as <- _. exact (listing_names_only _ _ _ Hq).
    + discriminate.
  - emits.
  - intros tables Htables.
    apply emits_bind; [|intros _; apply summary_quiet; exact Htables].
    apply emits_for_each. intros table. apply migrate_table_quiet.
Qed.

(** C10: the end-of-run total adds up [table.failedRows?.length || 0] over
    the rows of the table listing.  Those rows carry the column [name] and
    nothing else, so the total is 0 whatever the per-table failure lists held,
    and no run writes a line that starts with "Total failed rows". *)
Theorem total_failed_rows_never_printed (fuel : nat) (w : World E) :
  (forall tables, Forall name_only tables -> totalFailedRows tables = 0) /\
  (forall line, In line (console_lines (trace (snd (main fuel w)))) -> total_line line = false).
Proof.
  split.
  - intros tables H. apply (totalFailedRows_from tables 0 H).
  - assert (Hrun : emits_only (E:=E) not_total_line
                     (try_catch (migrate fuel) (fun error => console_error "" (ErrArg error)))).
    { unfold migrate, connect. pose proof (migrate_body_quiet fuel). emits. }
    destruct (Hrun (init_state w)) as (evs & Htr & Hevs).
    assert (Hmain : trace (snd (main fuel w)) = evs).
    { unfold main.
      destruct (try_catch (migrate fuel) _ (init_state w)) as [[a|e|c|] st']; exact Htr. }
    rewrite Hmain. clear Hmain Htr Hrun.
    induction Hevs as [|ev evs Hev _ IH]; intros line Hin; [destruct Hin|].
    unfold console_lines in *. cbn [flat_map] in Hin. apply in_app_or in Hin.
    destruct Hin as [Hin|Hin]; [|exact (IH line Hin)].
    destruct ev; try destruct Hin as [<-|[]]; try destruct Hin. exact Hev.
Qed.

End Summary.

Lemma total_failed_rows_never_printed_witness :
  In "Failed to migrate 1 rows from chat"
     (console_lines (trace (snd (main (E:=Script) 3
        (one_table_world three_rows [Ok []; Ok []; Ok []; Err duplicate_key]))))) /\
  total_line "Failed to migrate 1 rows from chat" = false.
Proof.
  assert (Hin : In "Failed to migrate 1 rows from chat"
     (console_lines (trace (snd (main (E:=Script) 3
        (one_table_world three_rows [Ok []; Ok []; Ok []; Err duplicate_key])))))).
  { vm_compute. tauto. }
  split; [exact Hin|].
  exact (proj2 (total_failed_rows_never_printed (E:=Script) script_lists_names_only 3
                  (one_table_world three_rows [Ok []; Ok []; Ok []; Err duplicate_key]))
               _ Hin).
Defined.

(** ** The integrity check *)

Section Integrity.
Context {E : Env}.

(** What [checkSqliteIntegrity] returns, from the answers of its four
    statements (each asked in the world the one before left). *)
Lemma checkSqliteIntegrity_result (st : state E) :
  let a1 := sqlite_get E "PRAGMA integrity_check;" (world st) in
  let a2 := sqlite_get E "PRAGMA quick_check;" (snd a1) in
  let a3 := sqlite_all E "PRAGMA foreign_key_check;" (snd a2) in
  let a4 := sqlite_get E "SELECT COUNT(*) FROM sqlite_master;" (snd a3) in
  fst (checkSqliteIntegrity st) =
    Val (match fst a1, fst a2, fst a3, fst a4 with
         | Ok (Some s1), Ok (Some s2), Ok [], Ok _ =>
             strict_eq_str (get s1 "integrity_check") "ok" &&
             strict_eq_str (get s2 "quick_check") "ok"
         | _, _, _, _ => false
         end).
Proof.
  cbv zeta.
  unfold checkSqliteIntegrity, prop_of, bind, try_catch, console_log, emit, sqliteGet,
    sqliteAll, call, lift_result, ret, throw.
  cbn [world trace processedRows failedRows].
  destruct (sqlite_get E "PRAGMA integrity_check;" (world st)) as [[[s1|]|e1] w1];
    cbn [fst snd world trace processedRows failedRows]; try reflexivity;
  destruct (sqlite_get E "PRAGMA quick_check;" w1) as [[[s2|]|e2] w2];
    cbn [fst snd world trace processedRows failedRows]; try reflexivity;
  destruct (sqlite_all E "PRAGMA foreign_key_check;" w2) as [[[|r rs]|e3] w3];
    cbn [fst snd world trace processedRows failedRows length Nat.ltb Nat.leb negb];
    try reflexivity;
  destruct (strict_eq_str (get s1 "integrity_check") "ok");
    cbn [fst snd world trace processedRows failedRows negb andb]; try reflexivity;
  try (destruct (strict_eq_str (get s2 "quick_check") "ok");
    cbn [fst snd world trace processedRows failedRows negb andb]; try reflexivity);
  try (destruct (sqlite_get E "SELECT COUNT(*) FROM sqlite_master;" w3) as [[o|e4] w4];
    cbn [fst snd]; reflexivity).
Qed.

(** C5: the integrity check always returns, and it returns false exactly
    when the full scan or the quick scan reports a status other than ok, or
    the foreign-key check lists a violation, or one of its statements (the
    three checks and the closing test query) raises an error.  When it
    returns false the process exits with code 1 and no statement has been
    sent to the destination. *)
Theorem integrity_failure_aborts_before_destination (st : state E) :
  let a1 := sqlite_get E "PRAGMA integrity_check;" (world st) in
  let a2 := sqlite_get E "PRAGMA quick_check;" (snd a1) in
  let a3 := sqlite_all E "PRAGMA foreign_key_check;" (snd a2) in
  let a4 := sqlite_get E "SELECT COUNT(*) FROM sqlite_master;" (snd a3) in
  (exists ok, fst (checkSqliteIntegrity st) = Val ok) /\
  (fst (checkSqliteIntegrity st) = Val false <->
     reports_not_ok "integrity_check" (fst a1) \/ reports_not_ok "quick_check" (fst a2) \/
     reports_violations (fst a3) \/
     raised (fst a1) \/ raised (fst a2) \/ raised (fst a3) \/ raised (fst a4)) /\
  (forall (fuel : nat) (w : World E),
     fst (connect (init_state w)) = Val tt ->
     fst (checkSqliteIntegrity (snd (connect (init_state w)))) = Val false ->
     fst (main fuel w) = Some 1 /\ pg_statements (trace (snd (main fuel w))) = []).
Proof.
  cbv zeta. split; [|split].
  - eexists. apply checkSqliteIntegrity_result.
  - pose proof (checkSqliteIntegrity_result st) as Hres. cbv zeta in Hres. rewrite Hres.
    clear Hres. unfold reports_not_ok, reports_violations, raised.
    destruct (fst (sqlite_get E "PRAGMA integrity_check;" (world st))) as [[s1|]|e1];
    destruct (fst (sqlite_get E "PRAGMA quick_check;" _)) as [[s2|]|e2];
    destruct (fst (sqlite_all E "PRAGMA foreign_key_check;" _)) as [[|r rs]|e3];
    destruct (fst (sqlite_get E "SELECT COUNT(*) FROM sqlite_master;" _)) as [o|e4];
    try destruct (strict_eq_str (get s1 "integrity_check") "ok");
    try destruct (strict_eq_str (get s2 "quick_check") "ok");
    cbn [andb]; split; intros H; try reflexivity; try tauto; try discriminate H;
    try (right; right; left; discriminate);
    try (repeat destruct H as [H|H]; first [discriminate H | contradiction | congruence]).
  - intros fuel w Hconn Hcheck.
    destruct (connect_sends_nothing (init_state w)) as (evs1 & Htr1 & Hevs1).
    destruct (checkSqliteIntegrity_sends_nothing (snd (connect (init_state w))))
      as (evs2 & Htr2 & Hevs2).
    destruct (connect (init_state w)) as [o1 st1] eqn:Hc.
    cbn [fst snd] in *. subst o1.
    destruct (checkSqliteIntegrity st1) as [o2 st2] eqn:Hk.
    cbn [fst snd] in *. subst o2.
    assert (Hbody : migrate_body fuel st1 =
              (Exit 1, mkState (world st2)
                         (trace st2 ++
                          [ConsoleLog "Aborting migration due to database integrity issues" NoArg])
                         (processedRows st2) (failedRows st2))).
    { unfold migrate_body. rewrite (bind_val _ _ _ _ _ Hk). reflexivity. }
    assert (Hmain : main fuel w =
              (Some 1, mkState (world st2)
                         (trace st2 ++
                          [ConsoleLog "Aborting migration due to database integrity issues" NoArg])
                         (processedRows st2) (failedRows st2))).
    { unfold main, migrate. unfold try_catch at 1. rewrite (bind_val _ _ _ _ _ Hc).
      unfold try_finally, try_catch. rewrite Hbody. reflexivity. }
    rewrite Hmain. cbn [fst snd trace]. split; [reflexivity|].
    rewrite Htr2, Htr1. cbn [init_state trace app]. rewrite !pg_statements_app.
    rewrite (no_pg_statements _ Hevs1), (no_pg_statements _ Hevs2). reflexivity.
Qed.

End Integrity.

Lemma integrity_failure_aborts_before_destination_witness :
  fst (main (E:=Script) 3 corrupt_world) = Some 1 /\
  pg_statements (trace (snd (main (E:=Script) 3 corrupt_world))) = [].
Proof.
  apply (proj2 (proj2 (integrity_failure_aborts_before_destination (E:=Script)
                         (init_state (E:=Script) corrupt_world))) 3 corrupt_world);
    vm_compute; reflexivity.
Defined.

(** ** The schema fetch and its retries *)

Section Retries.
Context {E : Env}.

(** C9: the schema fetch is tried at most [MAX_RETRIES] = 3 times, one
    attempt straight after the other (only the retry line is written in
    between).  The first attempt that succeeds ends the loop and its rows
    are the schema; when all three fail, the error of the third is thrown. *)
Theorem fetch_schema_retries (tableName : string) (st : state E) :
  let q := table_info tableName in
  let retry n := "Retry " +:+ n +:+ "/3 getting schema for " +:+ tableName +:+ ":" in
  let a1 := sqlite_all E q (world st) in
  let a2 := sqlite_all E q (snd a1) in
  let a3 := sqlite_all E q (snd a2) in
  let out := fst (fetch_schema tableName st) in
  let st' := snd (fetch_schema tableName st) in
  match fst a1, fst a2, fst a3 with
  | Ok rows, _, _ =>
      out = Val (Some rows) /\ world st' = snd a1 /\
      trace st' = (trace st ++ [SqliteAll q])%list
  | Err e1, Ok rows, _ =>
      out = Val (Some rows) /\ world st' = snd a2 /\
      trace st' = (trace st ++ [SqliteAll q; ConsoleLog (retry "1") (ErrArg e1);
                                SqliteAll q])%list
  | Err e1, Err e2, Ok rows =>
      out = Val (Some rows) /\ world st' = snd a3 /\
      trace st' = (trace st ++ [SqliteAll q; ConsoleLog (retry "1") (ErrArg e1);
                                SqliteAll q; ConsoleLog (retry "2") (ErrArg e2);
                                SqliteAll q])%list
  | Err e1, Err e2, Err e3 =>
      out = Throw e3 /\ world st' = snd a3 /\
      trace st' = (trace st ++ [SqliteAll q; ConsoleLog (retry "1") (ErrArg e1);
                                SqliteAll q; ConsoleLog (retry "2") (ErrArg e2);
                                SqliteAll q; ConsoleLog (retry "3") (ErrArg e3)])%list
  end.
Proof.
  cbv zeta. unfold fetch_schema. cbn [schema_loop MAX_RETRIES Nat.ltb Nat.leb].
  unfold bind, try_catch, console_log, emit, sqliteAll, call, lift_result, ret, throw.
  cbn [world trace processedRows failedRows].
  destruct (sqlite_all E (table_info tableName) (world st)) as [[rows1|e1] w1];
    cbn [fst snd world trace processedRows failedRows Nat.add Nat.eqb Nat.ltb Nat.leb
         MAX_RETRIES];
    [repeat split; reflexivity|].
  destruct (sqlite_all E (table_info tableName) w1) as [[rows2|e2] w2];
    cbn [fst snd world trace processedRows failedRows Nat.add Nat.eqb Nat.ltb Nat.leb
         MAX_RETRIES];
    [repeat split; try reflexivity; rewrite <- !app_assoc; reflexivity|].
  destruct (sqlite_all E (table_info tableName) w2) as [[rows3|e3] w3];
    cbn [fst snd world trace processedRows failedRows Nat.add Nat.eqb Nat.ltb Nat.leb
         MAX_RETRIES];
    repeat split; try reflexivity; rewrite <- !app_assoc; reflexivity.
Qed.

End Retries.

(** ** The rows of a page *)

Section Rows.
Context {E : Env}.
Variables (tableName safeTableName : string) (pgColumnTypes : gmap string value).

Lemma insert_row_run (r : row) (st : state E) :
  insert_row tableName safeTableName pgColumnTypes r st =
    let fail e st1 :=
      (Val tt,
       mkState (world st1)
         (trace st1 ++ [ConsoleLog ("Error processing row in " +:+ tableName +:+ ":") (ErrArg e)])
         (processedRows st1)
         (failedRows st1 ++
          [(tableName, processedRows st1 + length (failedRows st1), message e)])) in
    match map_result (encode_value (E:=E) pgColumnTypes) r with
    | Err e => fail e st
    | Ok values =>
        let q := insert_query (E:=E) safeTableName (map getSafeIdentifier (map fst r)) values in
        let st1 := mkState (snd (pg_query E q [] (world st))) (trace st ++ [PgQuery q []])
                     (processedRows st) (failedRows st) in
        match fst (pg_query E q [] (world st)) with
        | Ok _ => (Val tt, st1)
        | Err e => fail e st1
        end
    end.
Proof.
  unfold insert_row, try_catch, bind, lift_result, pgQuery, call, console_log, emit,
    get_processedRows, get_failedRows, set_failedRows, ret, throw.
  destruct (map_result (encode_value pgColumnTypes) r) as [values|e]; [|reflexivity].
  cbv zeta.
  destruct (pg_query E _ [] (world st)) as [[rows|e] w]; reflexivity.
Qed.

Lemma insert_row_effect (r : row) (st : state E) :
  exists st',
    insert_row tableName safeTableName pgColumnTypes r st = (Val tt, st') /\
    processedRows st' = processedRows st /\
    pg_statements (trace st') =
      (pg_statements (trace st) ++ attempted_insert (E:=E) safeTableName pgColumnTypes r)%list /\
    (failedRows st' = failedRows st \/
     exists msg, failedRows st' =
       (failedRows st ++ [(tableName, processedRows st + length (failedRows st), msg)])%list).
Proof.
  rewrite insert_row_run. unfold attempted_insert. cbv zeta.
  destruct (map_result (encode_value pgColumnTypes) r) as [values|e].
  - destruct (pg_query E _ [] (world st)) as [[rows|e] w]; cbn [fst snd];
      eexists; (split; [reflexivity|]); cbn [processedRows failedRows trace];
      (split; [reflexivity|]); rewrite ?pg_statements_app; (split; [|eauto]).
    + reflexivity.
    + rewrite <- app_assoc. reflexivity.
  - eexists; (split; [reflexivity|]); cbn [processedRows failedRows trace];
      (split; [reflexivity|]); rewrite ?pg_statements_app; (split; [|eauto]).
    reflexivity.
Qed.

(** The row loop never leaves its page early: whatever the inserts answer,
    it ends normally after one attempt per row, leaves the offset alone, and
    records each failure under the offset plus the number of failures
    recorded before it. *)
Lemma insert_rows_effect (rows : list row) (st : state E) :
  exists st' new,
    for_each rows (insert_row tableName safeTableName pgColumnTypes) st = (Val tt, st') /\
    processedRows st' = processedRows st /\
    pg_statements (trace st') =
      (pg_statements (trace st) ++
       flat_map (attempted_insert (E:=E) safeTableName pgColumnTypes) rows)%list /\
    failedRows st' = (failedRows st ++ new)%list /\
    length new <= length rows /\
    (forall k entry, nth_error new k = Some entry ->
       exists msg, entry = (tableName, processedRows st + (length (failedRows st) + k), msg)).
Proof.
  revert st. induction rows as [|r rows IH]; intros st.
  - exists st, []. cbn. rewrite !app_nil_r. repeat split; try reflexivity.
    intros [|k] entry H; discriminate H.
  - destruct (insert_row_effect r st) as (st1 & Hrun & Hp1 & Hq1 & Hf1).
    destruct (IH st1) as (st' & new & Hrun' & Hp' & Hq' & Hf' & Hlen & Hidx).
    cbn [for_each]. rewrite (bind_val _ _ _ _ _ Hrun).
    destruct Hf1 as [Hf1|(msg & Hf1)].
    + exists st', new. rewrite Hrun', Hp', Hp1, Hq', Hq1, Hf', Hf1.
      cbn [flat_map length]. rewrite <- app_assoc.
      repeat split; try reflexivity; [lia|]. intros k entry Hk.
      destruct (Hidx k entry Hk) as (m & ->). rewrite Hp1, Hf1. eauto.
    + exists st', ((tableName, processedRows st + length (failedRows st), msg) :: new).
      rewrite Hrun', Hp', Hp1, Hq', Hq1, Hf', Hf1.
      cbn [flat_map length]. rewrite <- !app_assoc.
      repeat split; try reflexivity; [apply le_n_S; exact Hlen|]. intros [|k] entry Hk.
      * injection Hk as <-. exists msg. rewrite Nat.add_0_r. reflexivity.
      * destruct (Hidx k entry Hk) as (m & ->). rewrite Hp1, Hf1, length_app.
        cbn [length]. exists m. f_equal. f_equal. simpl. lia.
Qed.

End Rows.

(** ** One turn of the batch loop *)

Section Batch.
Context {E : Env}.
Variables (tableName safeTableName : string) (pgColumnTypes : gmap string value)
  (totalRows : value).

(** The three ways a turn goes, by the answer to the page fetch; after a
    page with rows, by the answer to COMMIT as well. *)
Lemma batch_turn_run (st : state E) :
  let q := select_page tableName (processedRows st) in
  let a := sqlite_all E q (world st) in
  let st1 := mkState (snd a) (trace st ++ [SqliteAll q]) (processedRows st) (failedRows st) in
  let turn := batch_turn tableName safeTableName pgColumnTypes totalRows st in
  match fst a with
  | Err e =>
      turn = (Val Continue,
              mkState (snd a)
                ((trace st1 ++ [ConsoleLog "SQLite error during batch processing:" (ErrArg e)]) ++
                 [ConsoleLog "Attempting to continue with next batch..." NoArg])
                (processedRows st + BATCH_SIZE) (failedRows st))
  | Ok [] => turn = (Val Break, st1)
  | Ok rows =>
      let st2 := snd (for_each rows (insert_row tableName safeTableName pgColumnTypes) st1) in
      let c := pg_query E "COMMIT" [] (world st2) in
      fst turn = Val Continue /\
      world (snd turn) = snd c /\
      failedRows (snd turn) = failedRows st2 /\
      processedRows (snd turn) =
        match fst c with
        | Ok _ => processedRows st + length rows
        | Err _ => processedRows st + length rows + BATCH_SIZE
        end
  end.
Proof.
  cbv zeta.
  unfold batch_turn, try_catch, bind, get_processedRows, set_processedRows, sqliteAll, pgQuery,
    call, console_log, emit, lift_result, ret, throw.
  destruct (sqlite_all E (select_page tableName (processedRows st)) (world st))
    as [[[|r rows]|e] w]; cbn [fst snd world trace processedRows failedRows length Nat.eqb];
    try reflexivity.
  destruct (insert_rows_effect tableName safeTableName pgColumnTypes (r :: rows)
              (mkState w (trace st ++ [SqliteAll (select_page tableName (processedRows st))])
                 (processedRows st) (failedRows st)))
    as (st2 & new & Hrun & Hp & _).
  rewrite Hrun. cbn [fst snd world trace processedRows failedRows] in *.
  destruct (pg_query E "COMMIT" [] (world st2)) as [[rows'|e] w'];
    cbn [fst snd world trace processedRows failedRows]; rewrite Hp; repeat split; reflexivity.
Qed.

End Batch.

(** ** A page whose third row is rejected, and a page whose COMMIT fails *)

(** C1: a run on a table whose first page has three rows, the third of
    which the destination rejects.  All three INSERTs are sent, and the
    failure is recorded under row index 0, the number of failures recorded
    before it, not under 2, the position of the row in the table. *)
Theorem failed_row_recorded_under_failure_count :
  let run := main (E:=Script) 3
               (one_table_world three_rows [Ok []; Ok []; Ok []; Err duplicate_key]) in
  failedRows (snd run) = [("chat", 0, message duplicate_key)] /\
  nth_error three_rows 2 = Some [("id", VNum 2); ("title", VStr "c")] /\
  filter (String.prefix (nl +:+ "                INSERT INTO chat")) (pg_statements (trace (snd run))) =
    flat_map (attempted_insert (E:=Script) "chat" ∅) three_rows /\
  In "Row 0: duplicate key value violates unique constraint" (console_lines (trace (snd run))).
Proof.
  cbv zeta. split; [vm_compute; reflexivity|]. split; [vm_compute; reflexivity|].
  split; [vm_compute; reflexivity|]. vm_compute. tauto.
Qed.

(** C8: a turn of the batch loop that fetches two rows, inserts both, and
    then gets an error from COMMIT.  The offset goes from 0 to 2 + 500: the
    rows returned and a page width on top, as if the fetch had failed. *)
Theorem commit_error_skips_a_page :
  let st := init_state (E:=Script)
              (mkScript ["chat"] []
                 [Ok [[("id", VNum 1)]; [("id", VNum 2)]]]
                 [Ok []; Ok []; Err (mkError "error" "terminating connection")] [] []) in
  let turn := batch_turn "chat" "chat" ∅ (VNum 2) st in
  fst turn = Val Continue /\
  failedRows (snd turn) = [] /\
  processedRows (snd turn) = 2 + BATCH_SIZE /\
  In "SQLite error during batch processing:" (console_lines (trace (snd turn))).
Proof.
  cbv zeta. split; [vm_compute; reflexivity|]. split; [vm_compute; reflexivity|].
  split; [vm_compute; reflexivity|]. vm_compute. tauto.
Qed.

(** ** The destination column map *)

Section ColumnMap.
Context {E : Env}.





End ColumnMap.

(** *** The map the rows of a table are encoded with *)



Section EncoderMap.
Context {E : Env}.

Lemma insert_row_no_catalog tableName safeTableName pgColumnTypes r :
  emits_only (E:=E) not_catalog_query (insert_row tableName safeTableName pgColumnTypes r).
Proof. unfold insert_row. emits. Qed.

#[local] Hint Resolve insert_row_no_catalog : emits.





End EncoderMap.




(** ** Two general facts about the batch loop *)

Section Pages.
Context {E : Env}.

(** A failing row does not end its page.  The row loop ends normally for
    every page and every answer of the destination: one INSERT is sent per
    row that encodes, the offset is untouched, and the [k]-th entry of
    [failedRows] holds the offset of the page plus [k]. *)
Theorem row_failure_does_not_end_the_page (tableName safeTableName : string)
    (pgColumnTypes : gmap string value) (rows : list row) (st : state E) :
  exists st' new,
    for_each rows (insert_row tableName safeTableName pgColumnTypes) st = (Val tt, st') /\
    processedRows st' = processedRows st /\
    pg_statements (trace st') =
      (pg_statements (trace st) ++
       flat_map (attempted_insert (E:=E) safeTableName pgColumnTypes) rows)%list /\
    failedRows st' = (failedRows st ++ new)%list /\
    length new <= length rows /\
    (forall k entry, nth_error new k = Some entry ->
       exists msg, entry = (tableName, processedRows st + (length (failedRows st) + k), msg)).
Proof. apply insert_rows_effect. Qed.

(** The batch loop's turn: an empty page ends the loop; a fetch error is
    logged and moves the offset by [BATCH_SIZE]; a page with rows moves it by
    the number of rows when the COMMIT after the page succeeds, and by that
    number plus [BATCH_SIZE] when the COMMIT raises. *)
Theorem batch_turn_moves_the_offset (tableName safeTableName : string)
    (pgColumnTypes : gmap string value) (totalRows : value) (st : state E) :
  let q := select_page tableName (processedRows st) in
  let a := sqlite_all E q (world st) in
  let st1 := mkState (snd a) (trace st ++ [SqliteAll q]) (processedRows st) (failedRows st) in
  let turn := batch_turn tableName safeTableName pgColumnTypes totalRows st in
  match fst a with
  | Err e =>
      fst turn = Val Continue /\
      processedRows (snd turn) = processedRows st + BATCH_SIZE /\
      trace (snd turn) =
        (trace st ++ [SqliteAll q;
                      ConsoleLog "SQLite error during batch processing:" (ErrArg e);
                      ConsoleLog "Attempting to continue with next batch..." NoArg])%list
  | Ok [] => turn = (Val Break, st1)
  | Ok rows =>
      let st2 := snd (for_each rows (insert_row tableName safeTableName pgColumnTypes) st1) in
      fst turn = Val Continue /\
      processedRows (snd turn) =
        match fst (pg_query E "COMMIT" [] (world st2)) with
        | Ok _ => processedRows st + length rows
        | Err _ => processedRows st + length rows + BATCH_SIZE
        end
  end.
Proof.
  pose proof (batch_turn_run tableName safeTableName pgColumnTypes totalRows st) as H.
  cbv zeta in *.
  destruct (fst (sqlite_all E (select_page tableName (processedRows st)) (world st)))
    as [[|r rows]|e].
  - exact H.
  - destruct H as (H1 & _ & _ & H2). split; assumption.
  - rewrite H. cbn [fst snd processedRows trace]. rewrite <- !app_assoc.
    repeat split; reflexivity.
Qed.

End Pages.

(** * Further properties of the script *)

(** ** Identifiers *)

(** X3: what [getSafeIdentifier] gives back is never one of the reserved
    words, in any case, so applying it a second time changes nothing. *)
Theorem getSafeIdentifier_result_not_reserved (identifier : string) :
  includes reservedKeywords (toLowerCase (getSafeIdentifier identifier)) = false /\
  getSafeIdentifier (getSafeIdentifier identifier) = getSafeIdentifier identifier.
Proof.
  assert (H : includes reservedKeywords (toLowerCase (getSafeIdentifier identifier)) = false).
  { unfold getSafeIdentifier.
    destruct (includes reservedKeywords (toLowerCase identifier)) eqn:Hin;
      [reflexivity | exact Hin]. }
  split; [exact H|].
  unfold getSafeIdentifier at 1. rewrite H. reflexivity.
Qed.

(** ** The encoder on whole rows and on binary values *)

Lemma parse_quoted (s : string) :
  parse_literal (quoted (replace_all squote "''" s)) = Some s.
Proof.
  unfold quoted, parse_literal. change (Ascii.eqb squote squote) with true. cbv iota.
  apply scan_doubled.
Qed.

Lemma map_result_length {A B} (f : A -> result B) (l : list A) (ys : list B) :
  map_result f l = Ok ys -> length ys = length l.
Proof.
  revert ys. induction l as [|x l IH]; intros ys H; cbn [map_result] in H.
  - injection H as <-. reflexivity.
  - destruct (f x) as [y|e]; [|discriminate H].
    destruct (map_result f l) as [ys'|e]; [|discriminate H].
    injection H as <-. cbn [length]. rewrite (IH ys' eq_refl). reflexivity.
Qed.

Lemma map_result_error {A B} (f : A -> result B) (l : list A) (e : error) :
  map_result f l = Err e -> exists x, In x l /\ f x = Err e.
Proof.
  induction l as [|x l IH]; intros H; cbn [map_result] in H; [discriminate H|].
  destruct (f x) as [y|e'] eqn:Hx.
  - destruct (map_result f l) as [ys'|e'']; [discriminate H|].
    injection H as ->. destruct (IH eq_refl) as (x' & Hin & Hx').
    exists x'. split; [right; exact Hin | exact Hx'].
  - injection H as ->. exists x. split; [left; reflexivity | exact Hx].
Qed.

Lemma map_result_nth {A B} (f : A -> result B) (l : list A) (ys : list B) :
  map_result f l = Ok ys ->
  forall i x, nth_error l i = Some x -> exists y, nth_error ys i = Some y /\ f x = Ok y.
Proof.
  revert ys. induction l as [|x0 l IH]; intros ys H i x Hi; cbn [map_result] in H.
  - destruct i; discriminate Hi.
  - destruct (f x0) as [y0|e] eqn:Hx0; [|discriminate H].
    destruct (map_result f l) as [ys'|e]; [|discriminate H].
    injection H as <-. destruct i as [|i]; cbn [nth_error] in *.
    + injection Hi as <-. exists y0. split; [reflexivity | exact Hx0].
    + exact (IH ys' eq_refl i x Hi).
Qed.

(** An error is that of the first element that fails. *)
Lemma map_result_first_error {A B} (f : A -> result B) (l : list A) (e : error) :
  map_result f l = Err e ->
  exists i x, nth_error l i = Some x /\ f x = Err e /\
    forall j, j < i -> exists x' y', nth_error l j = Some x' /\ f x' = Ok y'.
Proof.
  induction l as [|x l IH]; intros H; cbn [map_result] in H; [discriminate H|].
  destruct (f x) as [y|e'] eqn:Hx.
  - destruct (map_result f l) as [ys'|e'']; [discriminate H|].
    injection H as ->. destruct (IH eq_refl) as (i & x' & Hi & Hx' & Hbefore).
    exists (S i), x'. split; [exact Hi|]. split; [exact Hx'|].
    intros [|j] Hj.
    + exists x, y. split; [reflexivity | exact Hx].
    + apply Hbefore. lia.
  - injection H as ->. exists 0, x. split; [reflexivity|]. split; [exact Hx|]. lia.
Qed.

Section RowEncoder.
Context {E : Env}.
Implicit Types (pgColumnTypes : gmap string value) (r : row).

(** X4: an encoded row has one literal per column, in the order of the
    row's keys: the literal at a position is the encoding of the value at
    that position of the row, and the column at that position of the INSERT
    is the safe identifier of its key.  Encoding a row can only throw on a
    binary value that [toString] rejects both as utf8 and as latin1: the
    first such value of the row, with the error of its latin1 attempt. *)
Theorem encoded_row_matches_columns pgColumnTypes r :
  (forall values, map_result (encode_value (E:=E) pgColumnTypes) r = Ok values ->
     length values = length (map getSafeIdentifier (map fst r)) /\
     forall i key value, nth_error r i = Some (key, value) ->
       nth_error (map getSafeIdentifier (map fst r)) i = Some (getSafeIdentifier key) /\
       exists literal,
         nth_error values i = Some literal /\
         encode_value (E:=E) pgColumnTypes (key, value) = Ok literal) /\
  (forall e, map_result (encode_value (E:=E) pgColumnTypes) r = Err e ->
     exists i key bytes e0,
       nth_error r i = Some (key, VBuf bytes) /\
       Buffer_toString_utf8 E bytes = Err e0 /\ Buffer_toString_latin1 E bytes = Err e /\
       forall j, j < i ->
         exists entry literal,
           nth_error r j = Some entry /\ encode_value (E:=E) pgColumnTypes entry = Ok literal).
Proof.
  split.
  - intros values H. split; [rewrite !length_map; exact (map_result_length _ _ _ H)|].
    intros i key value Hi. split.
    + rewrite !nth_error_map, Hi. reflexivity.
    + exact (map_result_nth _ _ _ H i (key, value) Hi).
  - intros e H. apply map_result_first_error in H.
    destruct H as (i & [key v] & Hi & Henc & Hbefore).
    unfold encode_value in Henc.
    destruct (is_null v); [discriminate Henc|].
    destruct (strict_eq_str _ "boolean"); [discriminate Henc|].
    destruct v as [| |n|s|bytes]; try discriminate Henc.
    destruct (Buffer_toString_utf8 E bytes) as [s|e0] eqn:Hutf; [discriminate Henc|].
    destruct (Buffer_toString_latin1 E bytes) as [s|e1] eqn:Hlat; [discriminate Henc|].
    injection Henc as ->. exists i, key, bytes, e0. auto.
Qed.

(** X5: a binary value in a column the destination does not report as
    boolean is decoded as utf8, or as latin1 when that throws, and the
    decoded text is written as a single-quoted literal with its quotes
    doubled.  Unlike a text value it keeps its NUL characters: the literal
    reads back to exactly the decoded text. *)
Theorem encode_buffer_keeps_decoded_text pgColumnTypes (key bytes decoded : string) :
  strict_eq_str (default VUndefined (pgColumnTypes !! key)) "boolean" = false ->
  Buffer_toString_utf8 E bytes = Ok decoded \/
    ((exists e, Buffer_toString_utf8 E bytes = Err e) /\
     Buffer_toString_latin1 E bytes = Ok decoded) ->
  exists literal,
    encode_value (E:=E) pgColumnTypes (key, VBuf bytes) = Ok (VStr literal) /\
    parse_literal literal = Some decoded /\
    count_char NUL literal = count_char NUL decoded.
Proof.
  intros Htype Hdec. exists (quoted (replace_all squote "''" decoded)). split; [|split].
  - unfold encode_value. cbn [is_null]. rewrite Htype.
    destruct Hdec as [Hutf|((e & Hutf) & Hlat)]; rewrite Hutf; [reflexivity|].
    rewrite Hlat. reflexivity.
  - apply parse_quoted.
  - unfold quoted. rewrite count_char_append. cbn [count_char].
    rewrite count_other_doubled by reflexivity.
    change (Ascii.eqb squote NUL) with false. cbv iota. lia.
Qed.

End RowEncoder.

Lemma encoded_row_matches_columns_witness :
  let r := [("id", VNum 1); ("title", VStr "it's")] in
  let values := [VNum 1; VStr "'it''s'"] in
  nth_error (map getSafeIdentifier (map fst r)) 1 = Some (getSafeIdentifier "title") /\
  exists literal,
    nth_error values 1 = Some literal /\
    encode_value (E:=Script) ∅ ("title", VStr "it's") = Ok literal.
Proof.
  intros r values.
  exact (proj2 (proj1 (encoded_row_matches_columns (E:=Script) ∅ r) values eq_refl)
           1 "title" (VStr "it's") eq_refl).
Defined.

Lemma encode_buffer_keeps_decoded_text_witness :
  exists literal,
    encode_value (E:=Script) ∅ ("blob", VBuf (String NUL "it's")) = Ok (VStr literal) /\
    parse_literal literal = Some (String NUL "it's") /\
    count_char NUL literal = count_char NUL (String NUL "it's").
Proof.
  apply (encode_buffer_keeps_decoded_text (E:=Script) ∅ "blob" (String NUL "it's")
           (String NUL "it's")); [reflexivity | left; reflexivity].
Defined.

(** ** The destination column map *)

Section ColumnTypes.
Context {E : Env}.

Lemma column_types_from (rows : list row) (m : gmap string value) :
  fold_left (fun m col => <[js_string (E:=E) (get col "column_name") := get col "data_type"]> m)
            rows m = ∅ ->
  rows = [] /\ m = ∅.
Proof.
  revert m. induction rows as [|col rows IH]; intros m H; cbn [fold_left] in H.
  - split; [reflexivity | exact H].
  - destruct (IH _ H) as [_ Hne]. exfalso. exact (insert_non_empty _ _ _ Hne).
Qed.

Lemma column_types_entry (rows : list row) (m : gmap string value) (k : string) (v : value) :
  fold_left (fun m col => <[js_string (E:=E) (get col "column_name") := get col "data_type"]> m)
            rows m !! k = Some v ->
  m !! k = Some v \/
  exists col, In col rows /\ js_string (E:=E) (get col "column_name") = k /\
              get col "data_type" = v.
Proof.
  revert m. induction rows as [|col rows IH]; intros m H; cbn [fold_left] in H.
  - left. exact H.
  - destruct (IH _ H) as [Hm|(col' & Hin & Hk & Hv)].
    + destruct (decide (js_string (E:=E) (get col "column_name") = k)) as [Heq|Hne].
      * rewrite Heq, lookup_insert_eq in Hm. injection Hm as <-.
        right. exists col. split; [left; reflexivity | split; [exact Heq | reflexivity]].
      * rewrite lookup_insert_ne in Hm by exact Hne. left. exact Hm.
    + right. exists col'. split; [right; exact Hin | split; assumption].
Qed.

Lemma assign_ordinary (m : gmap string value) (k type : string) :
  m !! "__proto__" = None ->
  assign (E:=E) (mkObject m ObjectPrototype) k (VStr type) =
    mkObject (if String.eqb k "__proto__" then m else <[k := VStr type]> m) ObjectPrototype.
Proof.
  intros Hm. unfold assign. cbn [own proto].
  destruct (String.eqb_spec k "__proto__") as [->|Hk].
  - rewrite Hm. reflexivity.
  - destruct (m !! k); reflexivity.
Qed.

(** As long as the types are strings the prototype stays [Object.prototype],
    and the rows named [__proto__] leave no trace. *)
Lemma column_types_ordinary (rows : list row) (m : gmap string value) :
  Forall reports_type rows -> m !! "__proto__" = None ->
  fold_left (fun o col => assign (E:=E) o (js_string (E:=E) (get col "column_name"))
                            (get col "data_type"))
            rows (mkObject m ObjectPrototype) =
    mkObject
      (fold_left (fun m col => <[js_string (E:=E) (get col "column_name") := get col "data_type"]> m)
         (List.filter (fun col => negb (String.eqb (column_key (E:=E) col) "__proto__")) rows) m)
      ObjectPrototype.
Proof.
  intros Hrows. revert m. induction Hrows as [|col rows (type & Htype) _ IH]; intros m Hm.
  - reflexivity.
  - cbn [fold_left List.filter]. unfold column_key at 1.
    rewrite Htype, (assign_ordinary m _ type Hm).
    destruct (String.eqb_spec (js_string (E:=E) (get col "column_name")) "__proto__") as [Hk|Hk];
      cbn [negb].
    + apply IH. exact Hm.
    + cbn [fold_left]. rewrite Htype. apply IH.
      rewrite lookup_insert_ne by exact Hk. exact Hm.
Qed.

(** X6: the column map built from a catalog answer whose types are strings.
    A row named [__proto__] enters nothing: the map is empty, which is the
    test for creating the table, exactly when the answer has no row of
    another name.  Every entry of the map comes from a row of the answer; and
    when two rows name the same column, the later one decides. *)
Theorem column_types_reflects_catalog (rows : list row) :
  Forall reports_type rows ->
  (size (column_types (E:=E) rows) = 0 <->
     Forall (fun col => column_key (E:=E) col = "__proto__") rows) /\
  (forall k v, column_types (E:=E) rows !! k = Some v ->
     k <> "__proto__" /\
     exists col, In col rows /\ column_key (E:=E) col = k /\ get col "data_type" = v) /\
  (forall col, reports_type col -> column_key (E:=E) col <> "__proto__" ->
     column_types (E:=E) (rows ++ [col]) !! column_key (E:=E) col = Some (get col "data_type")).
Proof.
  intros Hrows. unfold column_types.
  split; [|split].
  - rewrite (column_types_ordinary rows ∅ Hrows (lookup_empty _)). cbn [own].
    rewrite map_size_empty_iff. split.
    + intros H. apply column_types_from in H. destruct H as [H _].
      apply List.Forall_forall. intros col Hin.
      destruct (String.eqb_spec (column_key (E:=E) col) "__proto__") as [Hk|Hk]; [exact Hk|].
      exfalso.
      assert (Hcol : In col (List.filter
                (fun col => negb (String.eqb (column_key (E:=E) col) "__proto__")) rows)).
      { apply filter_In. split; [exact Hin|]. apply negb_true_iff, String.eqb_neq. exact Hk. }
      rewrite H in Hcol. destruct Hcol.
    + intros H.
      assert (Hnone : List.filter
                (fun col => negb (String.eqb (column_key (E:=E) col) "__proto__")) rows = []).
      { clear Hrows. induction H as [|col rows Hk _ IH]; [reflexivity|].
        cbn [List.filter]. rewrite Hk. exact IH. }
      rewrite Hnone. reflexivity.
  - intros k v. rewrite (column_types_ordinary rows ∅ Hrows (lookup_empty _)). cbn [own].
    intros H. destruct (column_types_entry _ ∅ k v H) as [Hm|(col & Hin & Hk & Hv)].
    + rewrite lookup_empty in Hm. discriminate Hm.
    + apply filter_In in Hin. destruct Hin as [Hin Hnamed].
      apply negb_true_iff, String.eqb_neq in Hnamed. unfold column_key in *. split.
      * rewrite <- Hk. exact Hnamed.
      * exists col. auto.
  - intros col Hcol Hk.
    assert (Hall : Forall reports_type (rows ++ [col])).
    { apply Forall_app. split; [exact Hrows | repeat constructor; exact Hcol]. }
    rewrite (column_types_ordinary _ ∅ Hall (lookup_empty _)). cbn [own].
    rewrite List.filter_app, fold_left_app. cbn [List.filter].
    apply String.eqb_neq in Hk. rewrite Hk. cbn [negb fold_left].
    apply lookup_insert_eq.
Qed.

End ColumnTypes.

Lemma column_types_reflects_catalog_witness :
  size (column_types (E:=Script)
          [[("column_name", VStr "__proto__"); ("data_type", VStr "text")]]) = 0 /\
  column_types (E:=Script)
    ([[("column_name", VStr "id"); ("data_type", VStr "integer")];
      [("column_name", VStr "__proto__"); ("data_type", VStr "text")]] ++
     [[("column_name", VStr "id"); ("data_type", VStr "bigint")]]) !! "id" =
    Some (VStr "bigint").
Proof.
  split.
  - apply (proj1 (column_types_reflects_catalog (E:=Script)
                    [[("column_name", VStr "__proto__"); ("data_type", VStr "text")]]
                    ltac:(repeat constructor; eexists; reflexivity))).
    repeat constructor.
  - apply (proj2 (proj2 (column_types_reflects_catalog (E:=Script)
                    [[("column_name", VStr "id"); ("data_type", VStr "integer")];
                     [("column_name", VStr "__proto__"); ("data_type", VStr "text")]]
                    ltac:(repeat constructor; eexists; reflexivity)))
             [("column_name", VStr "id"); ("data_type", VStr "bigint")]).
    + eexists. reflexivity.
    + discriminate.
Defined.

(** ** Blocks that never call [process.exit] *)

Section NeverExits.
Context {E : Env}.

Lemma stays_ret {A} (a : A) : never_exits (E:=E) (ret a).
Proof. intros st c. discriminate. Qed.

Lemma stays_throw {A} (e : error) : never_exits (E:=E) (throw (A:=A) e).
Proof. intros st c. discriminate. Qed.

Lemma stays_diverge {A} : never_exits (E:=E) (diverge (A:=A)).
Proof. intros st c. discriminate. Qed.

Lemma stays_lift_result {A} (r : result A) : never_exits (E:=E) (lift_result r).
Proof. destruct r; [apply stays_ret | apply stays_throw]. Qed.

Lemma stays_emit (ev : event) : never_exits (E:=E) (emit ev).
Proof. intros st c. discriminate. Qed.

Lemma stays_call {A} (ev : event) (f : World E -> result A * World E) :
  never_exits (E:=E) (call ev f).
Proof.
  intros st c. unfold call. destruct (f (world st)) as [[a|e] w]; discriminate.
Qed.

Lemma stays_state_read {A} (f : state E -> A) : never_exits (E:=E) (fun st => (Val (f st), st)).
Proof. intros st c. discriminate. Qed.

Lemma stays_set_processedRows (n : nat) : never_exits (E:=E) (set_processedRows n).
Proof. intros st c. discriminate. Qed.

Lemma stays_set_failedRows (l : list failure) : never_exits (E:=E) (set_failedRows l).
Proof. intros st c. discriminate. Qed.

Lemma stays_bind {A B} (m : M (E:=E) A) (k : A -> M (E:=E) B) :
  never_exits m -> (forall a, never_exits (k a)) -> never_exits (bind m k).
Proof.
  intros Hm Hk st c. unfold bind. specialize (Hm st).
  destruct (m st) as [[a|e|c'|] st']; cbn [fst] in *;
    [apply Hk | discriminate | exact (fun _ => Hm c' eq_refl) | discriminate].
Qed.

Lemma stays_try_catch {A} (m : M (E:=E) A) (h : error -> M (E:=E) A) :
  never_exits m -> (forall e, never_exits (h e)) -> never_exits (try_catch m h).
Proof.
  intros Hm Hh st c. unfold try_catch. specialize (Hm st).
  destruct (m st) as [[a|e|c'|] st']; cbn [fst] in *;
    [discriminate | apply Hh | exact (fun _ => Hm c' eq_refl) | discriminate].
Qed.

Lemma stays_for_each {A} (l : list A) (body : A -> M (E:=E) unit) :
  (forall x, never_exits (body x)) -> never_exits (for_each l body).
Proof.
  intros Hbody. induction l as [|x l IH]; cbn [for_each].
  - apply stays_ret.
  - apply stays_bind; [apply Hbody | intros _; exact IH].
Qed.

Lemma stays_map_M {A B} (f : A -> M (E:=E) B) (l : list A) :
  (forall x, never_exits (f x)) -> never_exits (map_M f l).
Proof.
  intros Hf. induction l as [|x l IH]; cbn [map_M].
  - apply stays_ret.
  - apply stays_bind; [apply Hf | intros y].
    apply stays_bind; [exact IH | intros ys; apply stays_ret].
Qed.

Lemma stays_prop_of (o : option row) (key : string) : never_exits (E:=E) (prop_of o key).
Proof. destruct o; [apply stays_ret | apply stays_throw]. Qed.

Lemma stays_string_receiver (expr method : string) (v : value) :
  never_exits (E:=E) (string_receiver expr method v).
Proof. destruct v; first [apply stays_ret | apply stays_throw]. Qed.

End NeverExits.

Create HintDb stays.

#[local] Hint Resolve stays_ret stays_throw stays_diverge stays_lift_result stays_emit stays_call
  stays_set_processedRows stays_set_failedRows stays_prop_of stays_string_receiver : stays.

Ltac stays_step :=
  match goal with
  | |- never_exits (bind _ _) => apply stays_bind; [|intros ?]
  | |- never_exits (try_catch _ _) => apply stays_try_catch; [|intros ?]
  | |- never_exits (for_each _ _) => apply stays_for_each; intros ?
  | |- never_exits (map_M _ _) => apply stays_map_M; intros ?
  | |- never_exits (console_log _ _) => apply stays_emit
  | |- never_exits (console_error _ _) => apply stays_emit
  | |- never_exits get_processedRows => apply (stays_state_read processedRows)
  | |- never_exits get_failedRows => apply (stays_state_read failedRows)
  | |- never_exits (sqliteRun _) => apply stays_call
  | |- never_exits (sqliteGet _) => apply stays_call
  | |- never_exits (sqliteAll _) => apply stays_call
  | |- never_exits pgConnect => apply stays_call
  | |- never_exits (pgQuery _ _) => apply stays_call
  | |- never_exits (if ?b then _ else _) => destruct b
  | |- never_exits (match ?x with _ => _ end) => destruct x
  | |- never_exits _ => solve [auto with stays]
  end.

Ltac stays := repeat stays_step.

Section TableLoop.
Context {E : Env}.

Lemma batch_loop_stays fuel tableName safeTableName pgColumnTypes totalRows :
  never_exits (E:=E) (batch_loop fuel tableName safeTableName pgColumnTypes totalRows).
Proof.
  induction fuel as [|fuel IH]; cbn [batch_loop]; [apply stays_diverge|].
  apply stays_bind; [unfold batch_turn, insert_row; stays|].
  intros [|]; [apply stays_ret | exact IH].
Qed.

Lemma schema_loop_stays fuel tableName retryCount :
  never_exits (E:=E) (schema_loop fuel tableName retryCount).
Proof.
  revert retryCount. induction fuel as [|fuel IH]; intros retryCount; cbn [schema_loop].
  - stays.
  - destruct (Nat.ltb retryCount MAX_RETRIES); [|apply stays_ret].
    apply stays_bind; [stays|]. intros [rows|n]; [apply stays_ret | apply IH].
Qed.

Lemma migrate_table_stays fuel table : never_exits (E:=E) (migrate_table fuel table).
Proof.
  unfold migrate_table, prepare_table, truncate_table, fetch_schema, create_table, column_def,
    report_table.
  pose proof schema_loop_stays. pose proof batch_loop_stays. stays.
Qed.

Lemma batch_loop_body_events fuel tableName safeTableName pgColumnTypes totalRows :
  emits_only (E:=E) body_event
    (batch_loop fuel tableName safeTableName pgColumnTypes totalRows).
Proof.
  induction fuel as [|fuel IH]; cbn [batch_loop]; [apply emits_diverge|].
  apply emits_bind; [unfold batch_turn, insert_row; emits|].
  intros [|]; [apply emits_ret | exact IH].
Qed.

Lemma schema_loop_body_events fuel tableName retryCount :
  emits_only (E:=E) body_event (schema_loop fuel tableName retryCount).
Proof.
  revert retryCount. induction fuel as [|fuel IH]; intros retryCount; cbn [schema_loop].
  - emits.
  - destruct (Nat.ltb retryCount MAX_RETRIES); [|apply emits_ret].
    apply emits_bind; [emits|]. intros [rows|n]; [apply emits_ret | apply IH].
Qed.

Lemma migrate_table_body_events fuel table :
  emits_only (E:=E) body_event (migrate_table fuel table).
Proof.
  unfold migrate_table, prepare_table, truncate_table, fetch_schema, create_table, column_def,
    report_table.
  pose proof schema_loop_body_events. pose proof batch_loop_body_events. emits.
Qed.

Lemma migrate_body_body_events fuel : emits_only (E:=E) body_event (migrate_body fuel).
Proof.
  unfold migrate_body, checkSqliteIntegrity, summary.
  pose proof migrate_table_body_events. emits.
Qed.

End TableLoop.

(** ** The outer handler, the exit code and the closing of the connections *)

Section Outer.
Context {E : Env}.

(** How [migrate] and line 301 end the run, by the outcome of connecting and
    of the [try] block. *)
Lemma main_run (fuel : nat) (w : World E) :
  let run := main fuel w in
  match connect (init_state w) with
  | (Val _, st0) =>
      match migrate_body fuel st0 with
      | (Val _, st1) =>
          fst run = Some 0 /\
          trace (snd run) = (trace st1 ++ [SqliteClose; PgEnd])%list
      | (Throw e, st1) =>
          fst run = Some 0 /\
          trace (snd run) =
            (trace st1 ++
             [ConsoleError "Critical error during migration:" (ErrArg e);
              ConsoleError "Stack trace:" (StackArg e);
              PgQuery "ROLLBACK" []; SqliteClose; PgEnd] ++
             match fst (pg_query E "ROLLBACK" [] (world st1)) with
             | Ok _ => []
             | Err e' => [ConsoleError "" (ErrArg e')]
             end)%list
      | (Exit c, st1) => run = (Some c, st1)
      | (Diverge, st1) => run = (None, st1)
      end
  | (Throw e, st0) =>
      fst run = Some 0 /\
      trace (snd run) = (trace st0 ++ [ConsoleError "" (ErrArg e)])%list
  | (Exit c, st0) => run = (Some c, st0)
  | (Diverge, st0) => run = (None, st0)
  end.
Proof.
  cbv zeta. remember (main fuel w) as run eqn:Hrun.
  destruct (connect (init_state w)) as [o0 st0] eqn:Hc.
  unfold main, migrate in Hrun. unfold try_catch at 1 in Hrun.
  destruct o0 as [[]|e|c|].
  - rewrite (bind_val _ _ _ _ _ Hc) in Hrun.
    destruct (migrate_body fuel st0) as [o1 st1] eqn:Hb.
    unfold try_finally, try_catch in Hrun. rewrite Hb in Hrun.
    destruct o1 as [[]|e|c|]; try (subst run; reflexivity).
    + subst run. cbn. rewrite <- app_assoc. split; reflexivity.
    + unfold bind, console_error, emit, pgQuery, call, lift_result, ret, throw in Hrun.
      cbn [world trace processedRows failedRows] in Hrun.
      destruct (pg_query E "ROLLBACK" [] (world st1)) as [[rows|e'] w'];
        subst run; cbn; rewrite <- !app_assoc; split; reflexivity.
  - unfold bind at 1 in Hrun. rewrite Hc in Hrun. subst run. cbn. split; reflexivity.
  - unfold bind at 1 in Hrun. rewrite Hc in Hrun. subst run. reflexivity.
  - unfold bind at 1 in Hrun. rewrite Hc in Hrun. subst run. reflexivity.
Qed.

Lemma connect_never_exits_aux : never_exits (E:=E) connect.
Proof. unfold connect. stays. Qed.

Lemma migrate_body_aborts (fuel : nat) (st : state E) :
  fst (checkSqliteIntegrity st) = Val false ->
  exists st1, migrate_body fuel st = (Exit 1, st1).
Proof.
  intros Hcheck. destruct (checkSqliteIntegrity st) as [o st1] eqn:Hk.
  cbn [fst] in Hcheck. subst o. eexists.
  unfold migrate_body. rewrite (bind_val _ _ _ _ _ Hk). reflexivity.
Qed.

Lemma migrate_body_exit (fuel : nat) (st : state E) (c : nat) :
  fst (migrate_body fuel st) = Exit c ->
  c = 1 /\ fst (checkSqliteIntegrity st) = Val false.
Proof.
  intros Hexit.
  pose proof (checkSqliteIntegrity_result st) as Hres. cbv zeta in Hres.
  destruct (checkSqliteIntegrity st) as [o st1] eqn:Hk. cbn [fst] in Hres. subst o.
  match type of Hk with _ = (Val ?b, _) => destruct b eqn:Hb end.
  - exfalso. unfold migrate_body in Hexit. rewrite (bind_val _ _ _ _ _ Hk) in Hexit.
    revert Hexit. cbn [negb].
    apply (stays_bind (ret tt)); [apply stays_ret | intros _].
    unfold summary. pose proof (migrate_table_stays (E:=E)). stays.
  - destruct (migrate_body_aborts fuel st) as (st2 & Hrun); [rewrite Hk; reflexivity|].
    rewrite Hrun in Hexit. injection Hexit as <-. split; reflexivity.
Qed.

(** X7: the process ends with exit code 1 exactly when the destination was
    reached and the integrity check returned false.  Every other run that
    ends, ends with code 0: also one in which connecting failed, or in which
    an error reached the outer handler. *)
Theorem exit_code_is_one_only_on_integrity_failure (fuel : nat) (w : World E) :
  (fst (main fuel w) = Some 1 <->
     fst (connect (init_state w)) = Val tt /\
     fst (checkSqliteIntegrity (snd (connect (init_state w)))) = Val false) /\
  (forall c, fst (main fuel w) = Some c -> c = 0 \/ c = 1).
Proof.
  pose proof (main_run fuel w) as Hrun. cbv zeta in Hrun.
  assert (Hconn : forall c, fst (connect (init_state w)) <> Exit c).
  { apply connect_never_exits_aux. }
  destruct (connect (init_state w)) as [[[]|e|c|] st0]; cbn [fst snd] in *.
  - pose proof (migrate_body_exit fuel st0) as Hexit.
    pose proof (migrate_body_aborts fuel st0) as Habort.
    destruct (migrate_body fuel st0) as [[[]|e|c|] st1]; cbn [fst] in *.
    + destruct Hrun as [-> _]. split.
      * split; [discriminate|]. intros [_ Hf].
        destruct (Habort Hf) as (st2 & H2). discriminate H2.
      * intros c H. injection H as <-. left. reflexivity.
    + destruct Hrun as [-> _]. split.
      * split; [discriminate|]. intros [_ Hf].
        destruct (Habort Hf) as (st2 & H2). discriminate H2.
      * intros c H. injection H as <-. left. reflexivity.
    + rewrite Hrun. cbn [fst]. destruct (Hexit c eq_refl) as [-> Hf]. split.
      * split; [intros _; split; [reflexivity | exact Hf] | reflexivity].
      * intros c H. injection H as <-. right. reflexivity.
    + rewrite Hrun. cbn [fst]. split.
      * split; [discriminate|]. intros [_ Hf].
        destruct (Habort Hf) as (st2 & H2). discriminate H2.
      * intros c H. discriminate H.
  - destruct Hrun as [-> _]. split.
    + split; [discriminate | intros [H _]; discriminate H].
    + intros c H. injection H as <-. left. reflexivity.
  - exfalso. exact (Hconn c eq_refl).
  - rewrite Hrun. cbn [fst]. split.
    + split; [discriminate | intros [H _]; discriminate H].
    + intros c H. discriminate H.
Qed.

End Outer.

Lemma exit_code_is_one_only_on_integrity_failure_witness :
  fst (main (E:=Script) 3 corrupt_world) = Some 1.
Proof.
  apply (proj2 (proj1 (exit_code_is_one_only_on_integrity_failure (E:=Script) 3 corrupt_world))).
  split; vm_compute; reflexivity.
Defined.

Section Closing.
Context {E : Env}.

Lemma connect_opens_only : emits_only (E:=E) (fun ev => is_close ev = false) connect.
Proof.
  unfold connect, sqliteRun, pgConnect.
  repeat (apply emits_bind; [|intros ?]);
    first [apply emits_emit | apply emits_call]; reflexivity.
Qed.

Lemma no_close_in (evs : list event) :
  Forall (fun ev => is_close ev = false) evs -> List.filter is_close evs = [].
Proof.
  induction 1 as [|ev evs Hev _ IH]; [reflexivity|].
  cbn [List.filter]. cbv beta in Hev. rewrite Hev. exact IH.
Qed.

Lemma body_events_no_close (evs : list event) :
  Forall body_event evs -> Forall (fun ev => is_close ev = false) evs.
Proof.
  induction 1 as [|ev evs Hev _ IH]; constructor; [|exact IH].
  destruct ev; first [reflexivity | destruct Hev].
Qed.

(** X8: an error that leaves the [try] block of [migrate] is logged twice
    on the error stream, a ROLLBACK is sent, both connections are closed,
    and the run ends with exit code 0; if the ROLLBACK itself fails, that
    error is printed after the connections are closed.  A run whose [try]
    block returns closes both connections and ends with code 0; after
    [process.exit] nothing more happens; when connecting fails the error is
    printed and the code is 0. *)
Theorem outer_handler_rolls_back_and_closes (fuel : nat) (w : World E) :
  let run := main fuel w in
  match connect (init_state w) with
  | (Val _, st0) =>
      match migrate_body fuel st0 with
      | (Val _, st1) =>
          fst run = Some 0 /\
          trace (snd run) = (trace st1 ++ [SqliteClose; PgEnd])%list
      | (Throw e, st1) =>
          fst run = Some 0 /\
          trace (snd run) =
            (trace st1 ++
             [ConsoleError "Critical error during migration:" (ErrArg e);
              ConsoleError "Stack trace:" (StackArg e);
              PgQuery "ROLLBACK" []; SqliteClose; PgEnd] ++
             match fst (pg_query E "ROLLBACK" [] (world st1)) with
             | Ok _ => []
             | Err e' => [ConsoleError "" (ErrArg e')]
             end)%list
      | (Exit c, st1) => run = (Some c, st1)
      | (Diverge, st1) => run = (None, st1)
      end
  | (Throw e, st0) =>
      fst run = Some 0 /\
      trace (snd run) = (trace st0 ++ [ConsoleError "" (ErrArg e)])%list
  | (Exit c, st0) => run = (Some c, st0)
  | (Diverge, st0) => run = (None, st0)
  end.
Proof. exact (main_run fuel w). Qed.

(** X9: the two connections are closed, each once and the source first,
    in the runs where connecting succeeded and the [try] block returned or
    threw.  They are not closed when connecting failed, nor when the
    integrity check made the process exit. *)
Theorem connections_closed_once_unless_exit (fuel : nat) (w : World E) :
  List.filter is_close (trace (snd (main fuel w))) =
    match fst (connect (init_state w)) with
    | Val _ =>
        match fst (migrate_body fuel (snd (connect (init_state w)))) with
        | Val _ | Throw _ => [SqliteClose; PgEnd]
        | _ => []
        end
    | _ => []
    end.
Proof.
  pose proof (main_run fuel w) as Hrun. cbv zeta in Hrun.
  destruct (connect_opens_only (init_state w)) as (evs0 & Htr0 & Hevs0).
  destruct (connect (init_state w)) as [o0 st0]. cbn [fst snd init_state trace app] in *.
  assert (H0 : List.filter is_close (trace st0) = []) by (rewrite Htr0; exact (no_close_in _ Hevs0)).
  destruct o0 as [[]|e|c|].
  - destruct (migrate_body_body_events fuel st0) as (evs1 & Htr1 & Hevs1).
    destruct (migrate_body fuel st0) as [o1 st1]. cbn [fst snd] in *.
    assert (H1 : List.filter is_close (trace st1) = []).
    { rewrite Htr1, List.filter_app, H0, (no_close_in _ (body_events_no_close _ Hevs1)).
      reflexivity. }
    destruct o1 as [[]|e|c|].
    + destruct Hrun as [_ ->]. rewrite List.filter_app, H1. reflexivity.
    + destruct Hrun as [_ ->]. rewrite List.filter_app, H1.
      destruct (fst (pg_query E "ROLLBACK" [] (world st1))); reflexivity.
    + rewrite Hrun. exact H1.
    + rewrite Hrun. exact H1.
  - destruct Hrun as [_ ->]. rewrite List.filter_app, H0. reflexivity.
  - rewrite Hrun. exact H0.
  - rewrite Hrun. exact H0.
Qed.

End Closing.

(** ** Preparing the destination table *)

Section Prepare.
Context {E : Env}.

Lemma truncate_table_trace (tableName safeTableName : string) (st : state E) :
  let sql := "TRUNCATE TABLE " +:+ safeTableName +:+ " CASCADE" in
  let a := pg_query E sql [] (world st) in
  truncate_table tableName safeTableName st =
    (Val tt,
     mkState (snd a)
       (trace st ++
        [ConsoleLog ("Truncating table: " +:+ tableName) NoArg; PgQuery sql []] ++
        match fst a with
        | Ok _ => []
        | Err e =>
            [ConsoleLog ("Note: Table " +:+ tableName +:+
                         " does not exist yet or could not be truncated:") (ErrArg e)]
        end)
       (processedRows st) (failedRows st)).
Proof.
  cbv zeta.
  unfold truncate_table, try_catch, bind, console_log, emit, pgQuery, call, lift_result, ret,
    throw.
  cbn [world trace processedRows failedRows].
  destruct (pg_query E _ [] (world st)) as [[rows|e] w];
    cbn [fst snd world trace processedRows failedRows];
    rewrite <- ?app_assoc; reflexivity.
Qed.

(** X10: the truncate is an attempt only.  Whatever the destination
    answers, [truncate_table] returns normally after one TRUNCATE ... CASCADE
    on the safe identifier; an error is written to the console and
    dropped. *)
Theorem truncate_failure_is_not_fatal (tableName safeTableName : string) (st : state E) :
  let sql := "TRUNCATE TABLE " +:+ safeTableName +:+ " CASCADE" in
  let a := pg_query E sql [] (world st) in
  truncate_table tableName safeTableName st =
    (Val tt,
     mkState (snd a)
       (trace st ++
        [ConsoleLog ("Truncating table: " +:+ tableName) NoArg; PgQuery sql []] ++
        match fst a with
        | Ok _ => []
        | Err e =>
            [ConsoleLog ("Note: Table " +:+ tableName +:+
                         " does not exist yet or could not be truncated:") (ErrArg e)]
        end)
       (processedRows st) (failedRows st)).
Proof. exact (truncate_table_trace tableName safeTableName st). Qed.

Lemma column_defs_typed (cols : list row) (st : state E) :
  Forall typed_column cols ->
  map_M (column_def (E:=E)) cols st = (Val (map column_text cols), st).
Proof.
  induction 1 as [|col cols (name & type & Hn & Ht) _ IH]; [reflexivity|].
  cbn [map_M map]. unfold bind at 1. unfold column_def at 1, column_text at 1.
  rewrite Hn, Ht. cbn. unfold bind at 1. rewrite IH. reflexivity.
Qed.

Lemma column_defs_untyped (cols : list row) (st : state E) :
  Exists (fun col => ~ typed_column col) cols ->
  exists e, err_name e = "TypeError" /\ map_M (column_def (E:=E)) cols st = (Throw e, st).
Proof.
  induction cols as [|col cols IH]; intros H; [inversion H|].
  cbn [map_M]. unfold bind at 1.
  destruct (get col "name") as [| |n|name|b] eqn:Hn;
    try (eexists; split; [|unfold column_def; rewrite Hn; reflexivity]; reflexivity).
  destruct (get col "type") as [| |n|type|b] eqn:Ht;
    try (eexists; split; [|unfold column_def; rewrite Hn, Ht; reflexivity]; reflexivity).
  assert (Hrest : Exists (fun col => ~ typed_column col) cols).
  { inversion H as [? ? Hcol|? ? Hcols]; subst; [|exact Hcols].
    exfalso. apply Hcol. exists name, type. split; assumption. }
  destruct (IH Hrest) as (e & Hname & Hrun). exists e. split; [exact Hname|].
  unfold column_def at 1. rewrite Hn, Ht. cbn. unfold bind at 1. rewrite Hrun. reflexivity.
Qed.

(** X11: creating the table.  When every source column has a string name
    and a string type, one CREATE TABLE IF NOT EXISTS is sent, listing each
    column as its safe identifier and its translated type, and an error from
    the destination is thrown on, not caught.  When some column does not,
    a TypeError is thrown and nothing is sent. *)
Theorem create_table_lists_every_column (safeTableName : string) (cols : list row)
    (st : state E) :
  (Forall typed_column cols ->
     let sql := create_statement safeTableName (join ", " (map column_text cols)) in
     let a := pg_query E sql [] (world st) in
     create_table safeTableName (Some cols) st =
       (match fst a with Ok _ => Val tt | Err e => Throw e end,
        mkState (snd a) (trace st ++ [PgQuery sql []]) (processedRows st) (failedRows st))) /\
  (Exists (fun col => ~ typed_column col) cols ->
     exists e, err_name e = "TypeError" /\
               create_table safeTableName (Some cols) st = (Throw e, st)).
Proof.
  split.
  - intros Htyped. cbv zeta. unfold create_table.
    rewrite (bind_val _ _ _ _ _ (column_defs_typed cols st Htyped)).
    unfold bind, pgQuery, call, lift_result, ret, throw.
    destruct (pg_query E _ [] (world st)) as [[rows|e] w]; reflexivity.
  - intros Huntyped. destruct (column_defs_untyped cols st Huntyped) as (e & Hname & Hrun).
    exists e. split; [exact Hname|]. unfold create_table, bind. rewrite Hrun. reflexivity.
Qed.

End Prepare.

Lemma create_table_lists_every_column_witness :
  let cols : list row := [[("name", VStr "id"); ("type", VStr "integer")];
                          [("name", VStr "order"); ("type", VStr "varchar(20)")]] in
  let run := create_table (E:=Script) "chat" (Some cols)
               (init_state (E:=Script) fresh_destination) in
  fst run = Val tt /\
  pg_statements (trace (snd run)) =
    [create_statement "chat"
       ("id INTEGER, " +:+ String dquote "order" +:+ String dquote " TEXT")].
Proof.
  intros cols run.
  assert (Htyped : Forall typed_column cols).
  { repeat constructor; eexists; eexists; split; reflexivity. }
  pose proof (proj1 (create_table_lists_every_column (E:=Script) "chat" cols
                       (init_state (E:=Script) fresh_destination)) Htyped) as H.
  cbv zeta in H. subst run. rewrite H. split; reflexivity.
Defined.

(** ** One table *)

Section OneTable.
Context {E : Env}.

Lemma bind_extends {A B} (P : event -> Prop) (m : M (E:=E) A) (k : A -> M (E:=E) B) :
  (forall a, emits_only P (k a)) ->
  forall st, exists evs,
    trace (snd (bind m k st)) = (trace (snd (m st)) ++ evs)%list /\ Forall P evs.
Proof.
  intros Hk st. unfold bind. destruct (m st) as [[a|e|c|] st1]; cbn [snd];
    [apply Hk | | |]; (exists []; split; [symmetry; apply app_nil_r | constructor]).
Qed.

Lemma call_trace {A} (ev : event) (f : World E -> result A * World E) (st : state E) :
  trace (snd (call ev f st)) = (trace st ++ [ev])%list.
Proof. unfold call. destruct (f (world st)) as [[a|e] w]; reflexivity. Qed.

(** X12: the two bookkeeping tables are skipped by their exact names: for
    them [migrate_table] writes one line and touches neither database.  For
    a table of any other name it first sends the TRUNCATE for the safe
    identifier and then asks the catalog, with the safe identifier (quotes
    included, for a reserved word) as the parameter. *)
Theorem migrate_table_skips_by_exact_name (fuel : nat) (table : row) (name : string)
    (st : state E) :
  get table "name" = VStr name ->
  if String.eqb name "migratehistory" || String.eqb name "alembic_version" then
    migrate_table fuel table st =
      (Val tt,
       mkState (world st) (trace st ++ [ConsoleLog ("Skipping table: " +:+ name) NoArg])
         (processedRows st) (failedRows st))
  else
    let safe := getSafeIdentifier name in
    let sql := "TRUNCATE TABLE " +:+ safe +:+ " CASCADE" in
    exists tail,
      trace (snd (migrate_table fuel table st)) =
        (trace st ++
         [ConsoleLog (nl +:+ "Processing table: " +:+ name) NoArg;
          ConsoleLog ("Truncating table: " +:+ name) NoArg;
          PgQuery sql []] ++
         match fst (pg_query E sql [] (world st)) with
         | Ok _ => []
         | Err e =>
             [ConsoleLog ("Note: Table " +:+ name +:+
                          " does not exist yet or could not be truncated:") (ErrArg e)]
         end ++
         [PgQuery columns_query [safe]] ++ tail)%list.
Proof.
  intros Hname. unfold migrate_table. rewrite Hname. cbn [strict_eq_str js_string string_receiver].
  destruct (String.eqb name "migratehistory" || String.eqb name "alembic_version");
    [reflexivity|].
  cbv zeta.
  unfold bind at 1, ret at 1. cbv beta iota.
  unfold bind at 1, console_log at 1, emit at 1. cbv beta iota.
  set (safe := getSafeIdentifier name).
  set (st1 := mkState (world st)
                (trace st ++ [ConsoleLog (nl +:+ "Processing table: " +:+ name) NoArg])
                (processedRows st) (failedRows st)).
  match goal with
  | |- context [bind (prepare_table name safe) ?k] =>
      assert (Hrest : forall a, emits_only (E:=E) body_event (k a))
  end.
  { intros a. pose proof (batch_loop_body_events (E:=E)). unfold report_table. emits. }
  destruct (bind_extends body_event (prepare_table name safe) _ Hrest st1) as (evs & -> & _).
  unfold prepare_table.
  pose proof (truncate_table_trace name safe st1) as Htrunc. cbv zeta in Htrunc.
  rewrite (bind_val _ _ _ _ _ Htrunc).
  match goal with
  | |- context [bind (pgQuery columns_query [safe]) ?k] =>
      assert (Hrest2 : forall a, emits_only (E:=E) body_event (k a))
  end.
  { intros a. pose proof (schema_loop_body_events (E:=E)).
    unfold fetch_schema, create_table, column_def. emits. }
  match goal with
  | |- context [bind (pgQuery columns_query [safe]) ?k ?s] =>
      destruct (bind_extends body_event (pgQuery columns_query [safe]) k Hrest2 s)
        as (evs2 & -> & _)
  end.
  unfold pgQuery at 1. rewrite call_trace. cbn [trace world st1].
  exists (evs2 ++ evs)%list. rewrite <- !app_assoc. reflexivity.
Qed.

End OneTable.

Lemma migrate_table_skips_by_exact_name_witness :
  pg_statements (trace (snd (migrate_table (E:=Script) 3 [("name", VStr "alembic_version")]
                               (init_state (E:=Script) fresh_destination)))) = [] /\
  exists tail,
    trace (snd (migrate_table (E:=Script) 3 [("name", VStr "Alembic_Version")]
                  (init_state (E:=Script) fresh_destination))) =
      ([ConsoleLog (nl +:+ "Processing table: Alembic_Version") NoArg;
        ConsoleLog "Truncating table: Alembic_Version" NoArg;
        PgQuery "TRUNCATE TABLE Alembic_Version CASCADE" [];
        PgQuery columns_query ["Alembic_Version"]] ++ tail)%list.
Proof.
  split.
  - pose proof (migrate_table_skips_by_exact_name (E:=Script) 3
                  [("name", VStr "alembic_version")] "alembic_version"
                  (init_state (E:=Script) fresh_destination) eq_refl) as H.
    cbn [String.eqb Ascii.eqb Bool.eqb orb andb] in H. rewrite H. reflexivity.
  - exact (migrate_table_skips_by_exact_name (E:=Script) 3
             [("name", VStr "Alembic_Version")] "Alembic_Version"
             (init_state (E:=Script) fresh_destination) eq_refl).
Defined.

(** ** Paging through a table *)

Lemma drop_chars_append (p s : string) : drop_chars (String.length p) (p +:+ s) = s.
Proof.
  induction p as [|x p IH]; [destruct s; reflexivity|].
  change (drop_chars (String.length p) (p +:+ s) = s). exact IH.
Qed.

Lemma select_page_split (tableName : string) (offset : nat) :
  select_page tableName offset = select_prefix tableName +:+ nat_to_string offset.
Proof.
  unfold select_page, select_prefix. rewrite !append_assoc3. reflexivity.
Qed.

Lemma offset_of_select_page (tableName : string) (offset : nat) :
  offset_of tableName (select_page tableName offset) = offset.
Proof.
  unfold offset_of. rewrite select_page_split, drop_chars_append.
  unfold nat_to_string. rewrite NilEmpty.usu. apply DecimalNat.Unsigned.of_to.
Qed.

Lemma steady_source_pages (tableName : string) (data : list row) (offset : nat) (w : unit) :
  fst (sqlite_all (Steady tableName (Ok data)) (select_page tableName offset) w) =
    Ok (firstn BATCH_SIZE (skipn offset data)).
Proof. cbn. rewrite offset_of_select_page. reflexivity. Qed.

Lemma inserts_are_not_commits {E : Env} (safeTableName : string)
    (pgColumnTypes : gmap string value) (rows : list row) :
  but_commits (flat_map (attempted_insert (E:=E) safeTableName pgColumnTypes) rows) =
    flat_map (attempted_insert (E:=E) safeTableName pgColumnTypes) rows.
Proof.
  unfold but_commits. induction rows as [|r rows IH]; [reflexivity|].
  cbn [flat_map]. rewrite List.filter_app, IH. f_equal.
  unfold attempted_insert. destruct (map_result _ r) as [values|e]; reflexivity.
Qed.

Lemma but_commits_app (l1 l2 : list string) :
  but_commits (l1 ++ l2) = (but_commits l1 ++ but_commits l2)%list.
Proof. apply List.filter_app. Qed.

Lemma page_tail {A} (n k : nat) (l : list A) :
  skipn (k + length (firstn n (skipn k l))) l = skipn n (skipn k l).
Proof.
  rewrite skipn_skipn, length_firstn, length_skipn.
  destruct (Nat.le_gt_cases n (length l - k)) as [Hle|Hgt].
  - rewrite Nat.min_l by exact Hle. f_equal. lia.
  - rewrite Nat.min_r by lia. rewrite !skipn_all2 by lia. reflexivity.
Qed.

Section Paging.
Context {E : Env}.
Variables (tableName safeTableName : string) (pgColumnTypes : gmap string value)
  (totalRows : value) (data : list row).

Lemma batch_turn_committed (st : state E) (page : list row) :
  fst (sqlite_all E (select_page tableName (processedRows st)) (world st)) = Ok page ->
  page <> [] ->
  let q := select_page tableName (processedRows st) in
  let st1 := mkState (snd (sqlite_all E q (world st))) (trace st ++ [SqliteAll q])
               (processedRows st) (failedRows st) in
  let st2 := snd (for_each page (insert_row tableName safeTableName pgColumnTypes) st1) in
  (exists rows, fst (pg_query E "COMMIT" [] (world st2)) = Ok rows) ->
  exists st3,
    batch_turn tableName safeTableName pgColumnTypes totalRows st = (Val Continue, st3) /\
    processedRows st3 = processedRows st + length page /\
    failedRows st3 = failedRows st2 /\
    pg_statements (trace st3) = (pg_statements (trace st2) ++ ["COMMIT"])%list.
Proof.
  intros Hpage Hne. cbv zeta. intros (rows & Hcommit).
  unfold batch_turn, try_catch, bind, get_processedRows, set_processedRows, sqliteAll, pgQuery,
    call, console_log, emit, lift_result, ret, throw.
  destruct (sqlite_all E (select_page tableName (processedRows st)) (world st)) as [a w].
  cbn [fst snd] in *. subst a.
  cbn [world trace processedRows failedRows].
  destruct page as [|r page]; [contradiction|]. cbn [length Nat.eqb].
  destruct (insert_rows_effect tableName safeTableName pgColumnTypes (r :: page)
              (mkState w (trace st ++ [SqliteAll (select_page tableName (processedRows st))])
                 (processedRows st) (failedRows st)))
    as (st2 & new & Hrun & Hp & _).
  rewrite Hrun in *. cbn [fst snd world trace processedRows failedRows] in *.
  destruct (pg_query E "COMMIT" [] (world st2)) as [[rows'|e] w']; [|discriminate Hcommit].
  eexists. split; [reflexivity|]. cbn [processedRows failedRows trace length].
  rewrite Hp, !pg_statements_app. cbn. rewrite app_nil_r. repeat split; reflexivity.
Qed.

(** The source holds [data] in a fixed order and does not change. *)
Hypothesis source_is_steady :
  forall (offset : nat) (w : World E),
    fst (sqlite_all E (select_page tableName offset) w) =
      Ok (firstn BATCH_SIZE (skipn offset data)).

(** The destination accepts every statement. *)
Hypothesis destination_accepts :
  forall (sql : string) (w : World E), exists rows, fst (pg_query E sql [] w) = Ok rows.

(** Every row can be encoded. *)
Hypothesis rows_encode : Forall (encodes (E:=E) pgColumnTypes) data.

Lemma insert_rows_clean (rows : list row) (st : state E) :
  Forall (encodes (E:=E) pgColumnTypes) rows ->
  failedRows (snd (for_each rows (insert_row tableName safeTableName pgColumnTypes) st)) =
    failedRows st.
Proof.
  intros H. revert st. induction H as [|r rows (values & Henc) _ IH]; intros st; [reflexivity|].
  cbn [for_each]. unfold bind at 1. rewrite insert_row_run, Henc. cbv zeta.
  destruct (destination_accepts
              (insert_query (E:=E) safeTableName (map getSafeIdentifier (map fst r)) values)
              (world st)) as (rows' & Hok).
  rewrite Hok. rewrite IH. reflexivity.
Qed.

Lemma batch_loop_from (fuel : nat) (st : state E) :
  length (skipn (processedRows st) data) < fuel ->
  exists st',
    batch_loop fuel tableName safeTableName pgColumnTypes totalRows st = (Val tt, st') /\
    processedRows st' = processedRows st + length (skipn (processedRows st) data) /\
    failedRows st' = failedRows st /\
    but_commits (pg_statements (trace st')) =
      (but_commits (pg_statements (trace st)) ++
       flat_map (attempted_insert (E:=E) safeTableName pgColumnTypes)
                (skipn (processedRows st) data))%list.
Proof.
  revert st. induction fuel as [|fuel IH]; intros st Hfuel; [lia|].
  cbn [batch_loop].
  pose proof (source_is_steady (processedRows st) (world st)) as Hpage.
  destruct (firstn BATCH_SIZE (skipn (processedRows st) data)) as [|r page] eqn:Hfirst.
  - (* the empty page: the table is exhausted *)
    pose proof (batch_turn_run tableName safeTableName pgColumnTypes totalRows st) as Hturn.
    cbv zeta in Hturn. rewrite Hpage in Hturn.
    rewrite (bind_val _ _ _ _ _ Hturn). eexists. split; [reflexivity|].
    assert (Hrest : skipn (processedRows st) data = []).
    { destruct (skipn (processedRows st) data); [reflexivity | discriminate Hfirst]. }
    rewrite Hrest. cbn [processedRows failedRows trace length flat_map].
    rewrite pg_statements_app, app_nil_r, Nat.add_0_r. cbn. rewrite app_nil_r.
    repeat split; reflexivity.
  - (* a page with rows *)
    set (page' := r :: page) in *.
    assert (Hne : page' <> []) by discriminate.
    pose proof (batch_turn_committed st page' Hpage Hne) as Hturn. cbv zeta in Hturn.
    set (st1 := mkState _ _ _ _) in Hturn.
    destruct (insert_rows_effect tableName safeTableName pgColumnTypes page' st1)
      as (st2 & new & Hrun & Hp2 & Hq2 & _).
    assert (Hclean : failedRows st2 = failedRows st).
    { pose proof (insert_rows_clean page' st1) as Hc. rewrite Hrun in Hc. apply Hc.
      rewrite <- Hfirst. apply Forall_take, Forall_drop, rows_encode. }
    rewrite Hrun in Hturn. cbn [snd] in Hturn.
    destruct (Hturn (destination_accepts "COMMIT" (world st2)))
      as (st3 & Hrun3 & Hp3 & Hf3 & Hq3).
    rewrite (bind_val _ _ _ _ _ Hrun3).
    assert (Hlen : length page' = length (firstn BATCH_SIZE (skipn (processedRows st) data)))
      by (rewrite Hfirst; reflexivity).
    assert (Htail : skipn (processedRows st3) data =
                    skipn BATCH_SIZE (skipn (processedRows st) data)).
    { rewrite Hp3, Hlen. apply page_tail. }
    destruct (IH st3) as (st' & Hrun' & Hp' & Hf' & Hq').
    { rewrite Htail, !length_skipn. rewrite length_skipn in Hfuel.
      assert (0 < length page') by (cbn; lia).
      rewrite Hlen, length_firstn, length_skipn in H. unfold BATCH_SIZE in *. lia. }
    exists st'. split; [exact Hrun'|]. rewrite Hp', Hf', Hq', Hf3, Hclean, Hq3, Htail.
    split; [|split; [reflexivity|]].
    + rewrite Hp3, Hlen.
      rewrite <- (firstn_skipn BATCH_SIZE (skipn (processedRows st) data)) at 3.
      rewrite length_app. lia.
    + rewrite but_commits_app, Hq2, but_commits_app, inserts_are_not_commits.
      subst st1. cbn [trace]. rewrite pg_statements_app. cbn.
      rewrite !app_nil_r, <- app_assoc. f_equal.
      rewrite <- (firstn_skipn BATCH_SIZE (skipn (processedRows st) data)) at 2.
      rewrite flat_map_app, Hfirst. reflexivity.
Qed.

(** X13: paging covers the table.  When the source holds the rows [data]
    and does not change, every row encodes and the destination accepts every
    statement, the batch loop started at offset 0 ends (with any fuel above
    the number of rows), has advanced the offset to the number of rows,
    recorded no failure, and has sent, COMMITs apart, exactly one INSERT per
    row, in the order of the source. *)
Theorem paging_inserts_every_row_once (fuel : nat) (st : state E) :
  processedRows st = 0 ->
  length data < fuel ->
  exists st',
    batch_loop fuel tableName safeTableName pgColumnTypes totalRows st = (Val tt, st') /\
    processedRows st' = length data /\
    failedRows st' = failedRows st /\
    but_commits (pg_statements (trace st')) =
      (but_commits (pg_statements (trace st)) ++
       flat_map (attempted_insert (E:=E) safeTableName pgColumnTypes) data)%list /\
    length (flat_map (attempted_insert (E:=E) safeTableName pgColumnTypes) data) = length data.
Proof.
  intros Hzero Hfuel.
  destruct (batch_loop_from fuel st) as (st' & Hrun & Hp & Hf & Hq).
  { rewrite Hzero. exact Hfuel. }
  rewrite Hzero in *. cbn [skipn Nat.add] in *.
  exists st'. split; [exact Hrun|]. split; [exact Hp|]. split; [exact Hf|].
  split; [exact Hq|].
  assert (Hall : forall rows, Forall (encodes (E:=E) pgColumnTypes) rows ->
            length (flat_map (attempted_insert (E:=E) safeTableName pgColumnTypes) rows) =
            length rows).
  { induction 1 as [|r rows (values & Henc) _ IH]; [reflexivity|].
    cbn [flat_map]. rewrite length_app, IH. unfold attempted_insert. rewrite Henc.
    reflexivity. }
  exact (Hall data rows_encode).
Qed.

End Paging.

Lemma long_table_encodes : Forall (encodes (E:=Steady "chat" (Ok long_table)) ∅) long_table.
Proof.
  apply List.Forall_forall. intros r Hin. apply repeat_spec in Hin. subst r.
  eexists. reflexivity.
Qed.

Lemma paging_inserts_every_row_once_witness :
  exists st',
    batch_loop (E:=Steady "chat" (Ok long_table)) 1002 "chat" "chat" ∅ (VNum 1001)
      (init_state (E:=Steady "chat" (Ok long_table)) tt) = (Val tt, st') /\
    processedRows st' = length long_table /\
    failedRows st' = [] /\
    but_commits (pg_statements (trace st')) =
      flat_map (attempted_insert (E:=Steady "chat" (Ok long_table)) "chat" ∅) long_table /\
    length (flat_map (attempted_insert (E:=Steady "chat" (Ok long_table)) "chat" ∅) long_table) =
      length long_table.
Proof.
  apply (paging_inserts_every_row_once (E:=Steady "chat" (Ok long_table))
           "chat" "chat" ∅ (VNum 1001) long_table
           (steady_source_pages "chat" long_table)
           (fun sql w => ex_intro _ [] eq_refl)
           long_table_encodes 1002 (init_state (E:=Steady "chat" (Ok long_table)) tt)).
  - reflexivity.
  - unfold long_table. rewrite repeat_length. lia.
Defined.

Section BrokenSource.
Context {E : Env}.
Variables (tableName safeTableName : string) (pgColumnTypes : gmap string value)
  (totalRows : value).

(** Every page fetch of the table fails. *)
Hypothesis source_is_broken :
  forall (offset : nat) (w : World E),
    exists e, fst (sqlite_all E (select_page tableName offset) w) = Err e.

(** X14: a source whose page fetch keeps failing keeps the batch loop
    going for ever: after any number of turns the loop has not ended, the
    offset has grown by [BATCH_SIZE] per turn, and nothing was sent to the
    destination or recorded as failed. *)
Theorem failing_fetch_never_ends_the_loop (fuel : nat) (st : state E) :
  let run := batch_loop fuel tableName safeTableName pgColumnTypes totalRows st in
  fst run = Diverge /\
  processedRows (snd run) = processedRows st + fuel * BATCH_SIZE /\
  failedRows (snd run) = failedRows st /\
  pg_statements (trace (snd run)) = pg_statements (trace st).
Proof.
  cbv zeta. revert st. induction fuel as [|fuel IH]; intros st.
  - cbn. rewrite Nat.add_0_r. repeat split; reflexivity.
  - cbn [batch_loop].
    pose proof (batch_turn_run tableName safeTableName pgColumnTypes totalRows st) as Hturn.
    cbv zeta in Hturn.
    destruct (source_is_broken (processedRows st) (world st)) as (e & He).
    rewrite He in Hturn. rewrite (bind_val _ _ _ _ _ Hturn).
    match goal with |- context [batch_loop fuel _ _ _ _ ?s] => specialize (IH s) end.
    destruct IH as (H1 & H2 & H3 & H4). rewrite H1, H2, H3, H4.
    cbn [processedRows failedRows trace].
    split; [reflexivity|]. split; [rewrite Nat.mul_succ_l; lia|]. split; [reflexivity|].
    rewrite !pg_statements_app. cbn [pg_statements flat_map app]. rewrite !app_nil_r.
    reflexivity.
Qed.

End BrokenSource.

Lemma failing_fetch_never_ends_the_loop_witness :
  let run := batch_loop (E:=Steady "chat" (Err count_fails)) 3 "chat" "chat" ∅ (VNum 2)
               (init_state (E:=Steady "chat" (Err count_fails)) tt) in
  fst run = Diverge /\
  processedRows (snd run) = 0 + 3 * BATCH_SIZE /\
  failedRows (snd run) = [] /\
  pg_statements (trace (snd run)) = [].
Proof.
  exact (failing_fetch_never_ends_the_loop (E:=Steady "chat" (Err count_fails))
           "chat" "chat" ∅ (VNum 2)
           (fun offset w => ex_intro _ count_fails eq_refl)
           3 (init_state (E:=Steady "chat" (Err count_fails)) tt)).
Defined.

(** ** The type translator, once more *)

(** X15: [sqliteToPgType] gives one of four types, and TEXT for every
    declared type whose length is not 4 or 7: only a declared type that
    upper-cases to exactly INTEGER, REAL or BLOB gets another type than TEXT,
    so a declared type with a size, a modifier or a blank is TEXT. *)
Theorem sqliteToPgType_is_text_off_the_keywords (sqliteType : string) :
  In (sqliteToPgType sqliteType) ["INTEGER"; "DOUBLE PRECISION"; "TEXT"; "BYTEA"] /\
  (sqliteToPgType sqliteType <> "TEXT" ->
     In (toUpperCase sqliteType) ["INTEGER"; "REAL"; "BLOB"] /\
     (js_length sqliteType = 7 \/ js_length sqliteType = 4)).
Proof.
  unfold sqliteToPgType. cbv zeta.
  destruct (String.eqb (toUpperCase sqliteType) "INTEGER") eqn:H1.
  { pose proof H1 as Heq. apply String.eqb_eq in Heq.
    rewrite toUpperCase_eqb in H1 by reflexivity. apply letters_match_length in H1.
    rewrite Heq. split; [cbn; tauto|]. intros _. split; [cbn; tauto | left; exact H1]. }
  destruct (String.eqb (toUpperCase sqliteType) "REAL") eqn:H2.
  { pose proof H2 as Heq. apply String.eqb_eq in Heq.
    rewrite toUpperCase_eqb in H2 by reflexivity. apply letters_match_length in H2.
    rewrite Heq. split; [cbn; tauto|]. intros _. split; [cbn; tauto | right; exact H2]. }
  destruct (String.eqb (toUpperCase sqliteType) "TEXT") eqn:H3.
  { split; [cbn; tauto | intros H; contradiction]. }
  destruct (String.eqb (toUpperCase sqliteType) "BLOB") eqn:H4.
  { pose proof H4 as Heq. apply String.eqb_eq in Heq.
    rewrite toUpperCase_eqb in H4 by reflexivity. apply letters_match_length in H4.
    rewrite Heq. split; [cbn; tauto|]. intros _. split; [cbn; tauto | right; exact H4]. }
  split; [cbn; tauto | intros H; contradiction].
Qed.

Lemma sqliteToPgType_is_text_off_the_keywords_witness :
  In (toUpperCase "ınteger") ["INTEGER"; "REAL"; "BLOB"] /\
  (js_length "ınteger" = 7 \/ js_length "ınteger" = 4).
Proof.
  apply (proj2 (sqliteToPgType_is_text_off_the_keywords "ınteger")). vm_compute. discriminate.
Defined.

(** ** The per-table report *)

Section Report.
Context {E : Env}.

Lemma report_lines (failed : list failure) (st : state E) :
  for_each failed
    (fun '(_, rowNum, error) =>
       console_log ("Row " +:+ nat_to_string rowNum +:+ ": " +:+ error) NoArg) st =
  (Val tt,
   mkState (world st) (trace st ++ map failure_line failed) (processedRows st) (failedRows st)).
Proof.
  revert st. induction failed as [|[[t n] msg] failed IH]; intros st.
  - cbn. rewrite app_nil_r. destruct st; reflexivity.
  - cbn [for_each map]. unfold bind at 1, console_log at 1, emit at 1. rewrite IH.
    cbn [world trace processedRows failedRows failure_line]. rewrite <- app_assoc. reflexivity.
Qed.

(** X16: the per-table report touches neither database and changes no
    counter.  It writes, when there is any failure, a heading and one line
    per entry of [failedRows] in the order recorded, and then the number of
    rows processed and the number of failures. *)
Theorem report_table_lists_every_failure (tableName : string) (st : state E) :
  report_table tableName st =
    (Val tt,
     mkState (world st)
       (trace st ++
        match failedRows st with
        | [] => []
        | _ => ConsoleLog (nl +:+ "Failed rows for " +:+ tableName +:+ ":") NoArg ::
               map failure_line (failedRows st)
        end ++
        [ConsoleLog ("Completed migrating " +:+ nat_to_string (processedRows st) +:+
                     " rows from " +:+ tableName) NoArg;
         ConsoleLog ("Failed to migrate " +:+ nat_to_string (length (failedRows st)) +:+
                     " rows from " +:+ tableName) NoArg])
       (processedRows st) (failedRows st)).
Proof.
  unfold report_table. unfold bind at 1, get_failedRows at 1. cbv beta iota.
  destruct (failedRows st) as [|f failed] eqn:Hfailed.
  - cbn [length Nat.ltb Nat.leb].
    unfold bind, ret, get_processedRows, get_failedRows, console_log, emit.
    cbn [world trace processedRows failedRows fst snd app]. rewrite Hfailed.
    rewrite <- ?app_assoc. reflexivity.
  - cbn [length Nat.ltb Nat.leb].
    unfold bind at 1. unfold bind at 1, console_log at 1, emit at 1. cbv beta iota.
    rewrite report_lines. cbn [world trace processedRows failedRows].
    unfold bind, get_processedRows, get_failedRows, console_log, emit.
    cbn [world trace processedRows failedRows]. rewrite Hfailed.
    rewrite <- !app_assoc. reflexivity.
Qed.

End Report.

(** ** The integrity check, once more *)

Section Scans.
Context {E : Env}.

Lemma source_reads_app (tr1 tr2 : list event) :
  source_reads (tr1 ++ tr2) = (source_reads tr1 ++ source_reads tr2)%list.
Proof. unfold source_reads. apply flat_map_app. Qed.

(** X17: the integrity check judges only after all three scans have
    answered.  A scan that reports a problem does not stop the scans after
    it from being run: only an error raised by a statement does.  The test
    query is sent exactly when the three scans passed, and nothing is sent
    to the destination. *)
Theorem integrity_check_runs_every_scan (st : state E) :
  let a1 := sqlite_get E "PRAGMA integrity_check;" (world st) in
  let a2 := sqlite_get E "PRAGMA quick_check;" (snd a1) in
  let a3 := sqlite_all E "PRAGMA foreign_key_check;" (snd a2) in
  let scans := ["PRAGMA integrity_check;"; "PRAGMA quick_check;"; "PRAGMA foreign_key_check;"] in
  let st' := snd (checkSqliteIntegrity st) in
  source_reads (trace st') =
    (source_reads (trace st) ++
     match fst a1, fst a2, fst a3 with
     | Err _, _, _ => firstn 1 scans
     | Ok _, Err _, _ => firstn 2 scans
     | Ok (Some s1), Ok (Some s2), Ok [] =>
         if strict_eq_str (get s1 "integrity_check") "ok" &&
            strict_eq_str (get s2 "quick_check") "ok"
         then scans ++ ["SELECT COUNT(*) FROM sqlite_master;"]
         else scans
     | _, _, _ => scans
     end)%list /\
  pg_statements (trace st') = pg_statements (trace st).
Proof.
  cbv zeta.
  unfold checkSqliteIntegrity, prop_of, bind, try_catch, console_log, emit, sqliteGet,
    sqliteAll, call, lift_result, ret, throw.
  cbn [world trace processedRows failedRows].
  destruct (sqlite_get E "PRAGMA integrity_check;" (world st)) as [[[s1|]|e1] w1];
    cbn [fst snd world trace processedRows failedRows];
  destruct (sqlite_get E "PRAGMA quick_check;" w1) as [[[s2|]|e2] w2];
    cbn [fst snd world trace processedRows failedRows];
  destruct (sqlite_all E "PRAGMA foreign_key_check;" w2) as [[[|r rs]|e3] w3];
    cbn [fst snd world trace processedRows failedRows length Nat.ltb Nat.leb negb];
  repeat match goal with
    | |- context [strict_eq_str ?v "ok"] =>
        destruct (strict_eq_str v "ok");
        cbn [fst snd world trace processedRows failedRows negb andb]
    | |- context [sqlite_get E "SELECT COUNT(*) FROM sqlite_master;" ?w] =>
        destruct (sqlite_get E "SELECT COUNT(*) FROM sqlite_master;" w) as [[o|e4] w4];
        cbn [fst snd world trace processedRows failedRows]
    end;
  rewrite ?source_reads_app, ?pg_statements_app;
  cbn [source_reads pg_statements flat_map app firstn];
  rewrite ?app_nil_r, <- ?app_assoc; cbn [app]; split; reflexivity.
Qed.

End Scans.
